(** * A shallow embedding of the textlint web checker's mock lint engine,
    its error-context extractor, its rule/severity filter and its
    debounced lint pipeline.

    Sources:
    - src/client/src/hooks/useTextlint.ts: [generateMockLintResult].  The
      file holds two copies of the hook; the first one (lines 1-270,
      modelled as [Engine]) scans every match of each rule, the second
      one (lines 272-500, modelled as [EngineFirst]) stops at the first
      match for some rules.
    - src/unnamed/part_001 (the Home page): [getErrorContext],
      [filteredMessages] and the debounce effect. *)

From Stdlib Require Import String Ascii NArith ZArith List Bool Lia.
Import ListNotations.

Open Scope Z_scope.

(** ** JavaScript strings

    A JS string is a sequence of UTF-16 code units; we keep it as a list
    of [N].  Literals are written as UTF-8 Rocq strings and decoded. *)

Definition jstr := list N.

Fixpoint utf8_decode (s : string) : jstr :=
  match s with
  | EmptyString => []
  | String a r =>
      let b := N_of_ascii a in
      if (b <? 128)%N then b :: utf8_decode r
      else if (b <? 224)%N then
        match r with
        | String a1 r1 =>
            ((b - 192) * 64 + (N_of_ascii a1 - 128))%N :: utf8_decode r1
        | EmptyString => []
        end
      else if (b <? 240)%N then
        match r with
        | String a1 (String a2 r2) =>
            ((b - 224) * 4096 + (N_of_ascii a1 - 128) * 64
             + (N_of_ascii a2 - 128))%N :: utf8_decode r2
        | _ => []
        end
      else
        match r with
        | String a1 (String a2 (String a3 r3)) =>
            let cp := ((b - 240) * 262144 + (N_of_ascii a1 - 128) * 4096
                       + (N_of_ascii a2 - 128) * 64 + (N_of_ascii a3 - 128))%N in
            (* outside the BMP: a surrogate pair *)
            (55296 + (cp - 65536) / 1024)%N
              :: (56320 + (cp - 65536) mod 1024)%N :: utf8_decode r3
        | _ => []
        end
  end.

Definition js (s : string) : jstr := utf8_decode s.
Arguments js s%_string.

Definition jstr_eqb (a b : jstr) : bool :=
  if list_eq_dec N.eq_dec a b then true else false.

(** [s.length] *)
Definition jlen (s : jstr) : Z := Z.of_nat (length s).

(** [s.substring(a, b)]: both ends clamped to [0, length], swapped when
    [a > b]. *)
Definition clampZ (x len : Z) : nat := Z.to_nat (Z.max 0 (Z.min x len)).

Definition substring (s : jstr) (a b : Z) : jstr :=
  let a' := clampZ a (jlen s) in
  let b' := clampZ b (jlen s) in
  let lo := Nat.min a' b' in
  let hi := Nat.max a' b' in
  firstn (hi - lo) (skipn lo s).

(** [s.substring(a)] *)
Definition substring1 (s : jstr) (a : Z) : jstr := substring s a (jlen s).

(** [s.split(sep)] for a separator given by a one-code-unit predicate
    (a one-character string or a one-character class). *)
Fixpoint split_on (sep : N -> bool) (s : jstr) : list jstr :=
  match s with
  | [] => [[]]
  | c :: r =>
      if sep c then [] :: split_on sep r
      else match split_on sep r with
           | w :: ws => (c :: w) :: ws
           | [] => [[c]]
           end
  end.

Fixpoint is_prefix (p s : jstr) : bool :=
  match p, s with
  | [], _ => true
  | x :: p', y :: s' => N.eqb x y && is_prefix p' s'
  | _ :: _, [] => false
  end.

(** [s.indexOf(p)], [-1] when absent. *)
Fixpoint index_of_from (p s : jstr) (i : Z) : Z :=
  if is_prefix p s then i
  else match s with
       | [] => -1
       | _ :: s' => index_of_from p s' (i + 1)
       end.

Definition index_of (s p : jstr) : Z := index_of_from p s 0.

(** [s.includes(p)] *)
Definition includes (s p : jstr) : bool := 0 <=? index_of s p.

(** Code unit at a position ([None] past the end). *)
Definition char_at (s : jstr) (i : nat) : option N := nth_error s i.

(** [\s] of JS regular expressions and [String.prototype.trim]. *)
Definition is_space (c : N) : bool :=
  ((9 <=? c) && (c <=? 13))%N || (c =? 32)%N || (c =? 160)%N
  || (c =? 5760)%N || ((8192 <=? c) && (c <=? 8202))%N
  || (c =? 8232)%N || (c =? 8233)%N || (c =? 8239)%N || (c =? 8287)%N
  || (c =? 12288)%N || (c =? 65279)%N.

(** [s.trim()] is empty, i.e. [!s.trim()]. *)
Definition blank (s : jstr) : bool := forallb is_space s.

(** Decimal rendering of a non-negative number in a template literal. *)
Fixpoint digits_rev (fuel : nat) (n : N) : jstr :=
  match fuel with
  | O => []
  | S f =>
      (48 + n mod 10)%N ::
      (if (n <? 10)%N then [] else digits_rev f (n / 10)%N)
  end.

Definition show_nat (n : nat) : jstr := rev (digits_rev (S n) (N.of_nat n)).

(** ** Regular-expression matching

    A pattern is given by its matcher at a fixed start position: [m s i]
    is [Some (e, cap)] when the pattern, anchored at index [i] of [s],
    matches up to index [e] with capture [cap], choosing the match that
    the backtracking JS engine finds first. *)

Definition matcher (A : Type) := jstr -> nat -> option (nat * A).

(** The loop [while ((m = re.exec(s)) !== null) ...] of a [/g] regular
    expression: [exec] looks for the first start position at or after
    [lastIndex] and then sets [lastIndex] to the end of the match.  We walk
    the positions one by one; [last] is the current [lastIndex].  (Every
    pattern of the engine matches a non-empty text, so [lastIndex] always
    moves forward.) *)
Fixpoint scan_from {A} (m : nat -> option (nat * A)) (n i last : nat)
  : list (nat * nat * A) :=
  match n with
  | O => []
  | S n' =>
      if Nat.ltb i last then scan_from m n' (S i) last
      else match m i with
           | Some (e, cap) => (i, e, cap) :: scan_from m n' (S i) e
           | None => scan_from m n' (S i) last
           end
  end.

(** All matches [(index, end, capture)] of a [/g] pattern, in order;
    [match[0]] is [slice s index end]. *)
Definition exec_all {A} (m : matcher A) (s : jstr) : list (nat * nat * A) :=
  scan_from (m s) (S (length s)) 0 0.

(** [s.match(re)] for a non-global pattern: the first match. *)
Definition exec_first {A} (m : matcher A) (s : jstr)
  : option (nat * nat * A) :=
  hd_error (exec_all m s).

(** Number of consecutive code units of class [p] from the head. *)
Fixpoint run {A} (p : A -> bool) (l : list A) : nat :=
  match l with
  | [] => O
  | c :: r => if p c then S (run p r) else O
  end.

Definition run_at (p : N -> bool) (s : jstr) (i : nat) : nat :=
  run p (skipn i s).

(** Backtracking of a greedy quantifier: try [lo + count], then one less,
    down to [lo]. *)
Fixpoint try_down {B} (test : nat -> option B) (count lo : nat) : option B :=
  match count with
  | O => test lo
  | S c =>
      match test (lo + S c)%nat with
      | Some b => Some b
      | None => try_down test c lo
      end
  end.

(** [X{lo,}] greedy over a run of [r] code units. *)
Definition greedy {B} (r lo : nat) (test : nat -> option B) : option B :=
  if Nat.ltb r lo then None else try_down test (r - lo) lo.

(** A literal pattern such as [/思う/g]. *)
Definition lit (p : jstr) : matcher unit :=
  fun s i => if is_prefix p (skipn i s) then Some ((i + length p)%nat, tt)
             else None.

(** The text matched at [i..e). *)
Definition slice (s : jstr) (i e : nat) : jstr := firstn (e - i) (skipn i s).

(** *** Character classes *)

Definition in_range (lo hi c : N) : bool := ((lo <=? c) && (c <=? hi))%N.

(** [[！!？?]] *)
Definition is_excl (c : N) : bool :=
  (c =? 65281)%N || (c =? 33)%N || (c =? 65311)%N || (c =? 63)%N.

(** [[。．]] *)
Definition is_period (c : N) : bool := (c =? 12290)%N || (c =? 65294)%N.

(** [[はがをに]] *)
Definition is_joshi (c : N) : bool :=
  (c =? 12399)%N || (c =? 12364)%N || (c =? 12434)%N || (c =? 12395)%N.

(** [[぀-ゟ゠-ヿ一-龯]] *)
Definition is_ja_word (c : N) : bool :=
  in_range 12352 12447 c || in_range 12448 12543 c || in_range 19968 40879 c.

(** [[a-zA-Z]] *)
Definition is_latin (c : N) : bool := in_range 97 122 c || in_range 65 90 c.

(** [\w], for [\b] *)
Definition is_word (c : N) : bool :=
  is_latin c || in_range 48 57 c || (c =? 95)%N.

(** [[一-龯]] *)
Definition is_kanji (c : N) : bool := in_range 19968 40879 c.

(** [\b] at position [p]: exactly one of the neighbours is a word char. *)
Definition word_char_at (s : jstr) (p : Z) : bool :=
  if p <? 0 then false
  else match char_at s (Z.to_nat p) with Some c => is_word c | None => false end.

Definition boundary (s : jstr) (p : nat) : bool :=
  xorb (word_char_at s (Z.of_nat p - 1)) (word_char_at s (Z.of_nat p)).

(** *** The patterns of [generateMockLintResult] *)

(** [/[！!？?]+/g] *)
Definition excl_re : matcher unit :=
  fun s i => let r := run_at is_excl s i in
             if Nat.eqb r 0 then None else Some ((i + r)%nat, tt).

(** [/([はがをに])[^はがをに]{0,10}\1/]: capture is the particle. *)
Definition joshi_re : matcher N :=
  fun s i =>
    match char_at s i with
    | Some c =>
        if is_joshi c then
          let r := Nat.min 10 (run_at (fun d => negb (is_joshi d)) s (S i)) in
          greedy r 0 (fun j =>
            match char_at s (S i + j) with
            | Some d => if (d =? c)%N then Some ((S i + j + 1)%nat, c) else None
            | None => None
            end)
        else None
    | None => None
    end.

(** [/(C{lo,})\1/]: a run of class [C] repeated at once; the capture is
    the repeated text. *)
Definition rep_re (cls : N -> bool) (lo : nat) : matcher jstr :=
  fun s i =>
    greedy (run_at cls s i) lo (fun L =>
      let g := slice s i (i + L) in
      if is_prefix g (skipn (i + L) s) then Some ((i + L + L)%nat, g) else None).

(** [/([぀-ゟ゠-ヿ一-龯]{2,})\1/g] *)
Definition ja_succ_re : matcher jstr := rep_re is_ja_word 2.

(** [/([a-zA-Z]{3,})\1/g] *)
Definition en_succ_re : matcher jstr := rep_re is_latin 3.

(** [/\b([a-zA-Z]{2,})\s+\1\b/g] *)
Definition en_space_re : matcher jstr :=
  fun s i =>
    if boundary s i then
      greedy (run_at is_latin s i) 2 (fun L =>
        let g := slice s i (i + L) in
        greedy (run_at is_space s (i + L)) 1 (fun W =>
          let j := (i + L + W)%nat in
          if is_prefix g (skipn j s) && boundary s (j + L)
          then Some ((j + L)%nat, g) else None))
    else None.

(** [/[一-龯]{7,}/] *)
Definition kanji_re : matcher unit :=
  fun s i => let r := run_at is_kanji s i in
             if Nat.ltb r 7 then None else Some ((i + r)%nat, tt).

(** [/\*\*[^*]+\*\*:/g] *)
Definition emphasis_re : matcher unit :=
  fun s i =>
    if is_prefix (js "**") (skipn i s) then
      greedy (run_at (fun c => negb (c =? 42)%N) s (i + 2)) 1 (fun k =>
        if is_prefix (js "**:") (skipn (i + 2 + k) s)
        then Some ((i + 2 + k + 3)%nat, tt) else None)
    else None.

(** [/(\S+)\1/] (second copy of the hook) *)
Definition nonspace_succ_re : matcher jstr :=
  rep_re (fun c => negb (is_space c)) 1.

(** ** Lint results *)

Record TextlintMessage := mkMessage {
  type : jstr;
  ruleId : jstr;
  message : jstr;
  line : Z;
  column : Z;
  severity : Z
}.

Record LintResult := mkLintResult {
  messages : list TextlintMessage;
  errorCount : Z;
  warningCount : Z
}.

(** [{ type: 'lint', ruleId, message, line, column, severity }] *)
Definition lint_msg (rid msg : jstr) (currentLine column sev : Z)
  : TextlintMessage :=
  mkMessage (js "lint") rid msg currentLine column sev.

(** Rule ids. *)
Definition rid_exclamation : jstr := Eval vm_compute in js "no-exclamation-question-mark".
Definition rid_sentence_length : jstr := Eval vm_compute in js "sentence-length".
Definition rid_redundant : jstr := Eval vm_compute in js "ja-no-redundant-expression".
Definition rid_weak : jstr := Eval vm_compute in js "ja-no-weak-phrase".
Definition rid_doubled_joshi : jstr := Eval vm_compute in js "no-doubled-joshi".
Definition rid_successive : jstr := Eval vm_compute in js "ja-no-successive-word".
Definition rid_abusage : jstr := Eval vm_compute in js "ja-no-abusage".
Definition rid_kanji : jstr := Eval vm_compute in js "max-kanji-continuous-len".
Definition rid_hype : jstr := Eval vm_compute in js "no-ai-hype-expressions".
Definition rid_list : jstr := Eval vm_compute in js "no-ai-list-formatting".
Definition rid_emphasis : jstr := Eval vm_compute in js "no-ai-emphasis-patterns".
Definition rid_colon : jstr := Eval vm_compute in js "no-ai-colon-continuation".

(** [(match.index || 0) + 1] *)
Definition col_of (i : nat) : Z := Z.of_nat i + 1.

(** ** The rules, one line at a time *)

(** 1. exclamation and question marks *)
Definition rule_exclamation (lineText : jstr) (currentLine : Z) :=
  map (fun '(i, _, _) =>
         lint_msg rid_exclamation
           (js "文末に感嘆符や疑問符を使用しないでください")
           currentLine (col_of i) 2)
      (exec_all excl_re lineText).

(** 2. sentence length, first copy: split on [/[。．]/] and walk the
    sentences with [currentColumn]. *)
Definition sentence_length_msg (n : nat) : jstr :=
  js "文が長すぎます。100文字以内にしてください。現在の文字数: " ++ show_nat n.

Fixpoint sentences_loop (sentences : list jstr) (currentColumn : Z)
  (currentLine : Z) : list TextlintMessage :=
  match sentences with
  | [] => []
  | sentence :: rest =>
      (if 100 <? jlen sentence then
         [lint_msg rid_sentence_length (sentence_length_msg (length sentence))
            currentLine currentColumn 2]
       else [])
      ++ sentences_loop rest (currentColumn + jlen sentence + 1) currentLine
  end.

Definition rule_sentence_length (lineText : jstr) (currentLine : Z) :=
  sentences_loop (split_on is_period lineText) 1 currentLine.

(** 3. redundant expressions *)
Definition redundantPhrases : list (jstr * jstr) :=
  [(js "まず最初に", js "「まず」または「最初に」");
   (js "することができる", js "「できる」");
   (js "することが可能", js "「可能」")].

Definition rule_redundant (lineText : jstr) (currentLine : Z) :=
  flat_map (fun '(pattern, suggestion) =>
    map (fun '(i, _, _) =>
           lint_msg rid_redundant
             (js "冗長な表現です。" ++ suggestion ++ js "を使用してください")
             currentLine (col_of i) 1)
        (exec_all (lit pattern) lineText))
    redundantPhrases.

(** 4. weak phrases *)
Definition weakPhrases : list jstr := [js "かもしれない"; js "思う"; js "だろう"].

Definition rule_weak (lineText : jstr) (currentLine : Z) :=
  flat_map (fun pattern =>
    map (fun '(i, _, _) =>
           lint_msg rid_weak
             (js "弱い表現を使用しています。より明確な表現を検討してください")
             currentLine (col_of i) 1)
        (exec_all (lit pattern) lineText))
    weakPhrases.

(** 5. doubled particles *)
Definition joshi_msg (c : N) : jstr :=
  js "助詞「" ++ [c] ++ js "」が連続して使用されています".

Definition rule_doubled_joshi (lineText : jstr) (currentLine : Z) :=
  map (fun '(i, _, c) =>
         lint_msg rid_doubled_joshi (joshi_msg c) currentLine (col_of i) 1)
      (exec_all joshi_re lineText).

(** 6. successive words *)
Definition successive_msg (w : jstr) : jstr :=
  js "「" ++ w ++ js "」が連続しています".

Definition rule_successive (lineText : jstr) (currentLine : Z) :=
  map (fun '(i, _, w) =>
         lint_msg rid_successive (successive_msg w) currentLine (col_of i) 2)
      (exec_all ja_succ_re lineText)
  ++ map (fun '(i, _, w) =>
         lint_msg rid_successive (successive_msg w) currentLine (col_of i) 2)
      (exec_all en_succ_re lineText)
  ++ map (fun '(i, _, w) =>
         lint_msg rid_successive
           (js "「" ++ w ++ js "」が連続しています（スペース区切り）")
           currentLine (col_of i) 2)
      (exec_all en_space_re lineText).

(** 7. "ra-nuki" verb forms *)
Definition ranukiPatterns : list jstr :=
  [js "食べれる"; js "見れる"; js "着れる"; js "考えれる"].

Definition rule_abusage (lineText : jstr) (currentLine : Z) :=
  flat_map (fun pattern =>
    map (fun '(i, _, _) =>
           lint_msg rid_abusage (js "ら抜き言葉を使用しています")
             currentLine (col_of i) 1)
        (exec_all (lit pattern) lineText))
    ranukiPatterns.

(** 8. long kanji runs: first match only, column from [indexOf]. *)
Definition rule_kanji (lineText : jstr) (currentLine : Z) :=
  match exec_first kanji_re lineText with
  | Some (i, e, _) =>
      let seq := slice lineText i e in
      [lint_msg rid_kanji
         (js "連続する漢字が長すぎます（" ++ show_nat (length seq)
          ++ js "文字）。6文字以内にしてください")
         currentLine (index_of lineText seq + 1) 1]
  | None => []
  end.

(** 9. AI-style patterns *)
Definition aiPatterns : list (matcher unit * jstr) :=
  [(lit (js "革命的な"), rid_hype);
   (lit (js "画期的な"), rid_hype);
   (lit (js "✅"), rid_list);
   (emphasis_re, rid_emphasis)].

Definition rule_ai (lineText : jstr) (currentLine : Z) :=
  flat_map (fun '(pattern, rid) =>
    map (fun '(i, _, _) =>
           lint_msg rid (js "AI生成文書に見られる表現パターンです")
             currentLine (col_of i) 1)
        (exec_all pattern lineText))
    aiPatterns.

(** 10. colons *)
Definition rule_colon (lineText : jstr) (currentLine : Z) :=
  if includes lineText (js ":") || includes lineText (js "：") then
    let colonIndex := Z.max (index_of lineText (js ":"))
                            (index_of lineText (js "：")) in
    [lint_msg rid_colon (js "コロンの使用は避けてください")
       currentLine (colonIndex + 1) 1]
  else [].

(** Counting by severity, as in the end of [generateMockLintResult]. *)
Definition count_sev (sev : Z) (ms : list TextlintMessage) : Z :=
  Z.of_nat (length (filter (fun m => severity m =? sev) ms)).

Definition mk_result (ms : list TextlintMessage) : LintResult :=
  mkLintResult ms (count_sev 2 ms) (count_sev 1 ms).

(** [text.split('\n').forEach((lineText, lineIndex) => ...)], each line
    handled by [lint_line] with [currentLine = lineIndex + 1]. *)
Fixpoint lint_lines (lint_line : jstr -> Z -> list TextlintMessage)
  (lines : list jstr) (lineIndex : nat) : list TextlintMessage :=
  match lines with
  | [] => []
  | lineText :: rest =>
      lint_line lineText (Z.of_nat lineIndex + 1)
      ++ lint_lines lint_line rest (S lineIndex)
  end.

(** [text.split('\n')] *)
Definition split_lines (text : jstr) : list jstr := split_on (N.eqb 10) text.

(** ** The first copy of [generateMockLintResult] (all matches) *)
Module Engine.

Definition lint_line (lineText : jstr) (currentLine : Z)
  : list TextlintMessage :=
  rule_exclamation lineText currentLine
  ++ rule_sentence_length lineText currentLine
  ++ rule_redundant lineText currentLine
  ++ rule_weak lineText currentLine
  ++ rule_doubled_joshi lineText currentLine
  ++ rule_successive lineText currentLine
  ++ rule_abusage lineText currentLine
  ++ rule_kanji lineText currentLine
  ++ rule_ai lineText currentLine
  ++ rule_colon lineText currentLine.

Definition generateMockLintResult (text : jstr) : LintResult :=
  mk_result (lint_lines lint_line (split_lines text) 0).

End Engine.

(** ** The second copy of [generateMockLintResult] (first matches) *)
Module EngineFirst.

(** 2. sentence length over the whole line *)
Definition rule_sentence_length (lineText : jstr) (currentLine : Z) :=
  if 100 <? jlen lineText then
    [lint_msg rid_sentence_length (sentence_length_msg (length lineText))
       currentLine 1 2]
  else [].

(** 5. doubled particles: first match, column from [indexOf]. *)
Definition rule_doubled_joshi (lineText : jstr) (currentLine : Z) :=
  match exec_first joshi_re lineText with
  | Some (i, e, c) =>
      [lint_msg rid_doubled_joshi (joshi_msg c) currentLine
         (index_of lineText (slice lineText i e) + 1) 1]
  | None => []
  end.

(** 6. successive words: [/(\S+)\1/], first match. *)
Definition rule_successive (lineText : jstr) (currentLine : Z) :=
  match exec_first nonspace_succ_re lineText with
  | Some (i, e, w) =>
      [lint_msg rid_successive (successive_msg w) currentLine
         (index_of lineText (slice lineText i e) + 1) 2]
  | None => []
  end.

Definition lint_line (lineText : jstr) (currentLine : Z)
  : list TextlintMessage :=
  rule_exclamation lineText currentLine
  ++ rule_sentence_length lineText currentLine
  ++ rule_redundant lineText currentLine
  ++ rule_weak lineText currentLine
  ++ rule_doubled_joshi lineText currentLine
  ++ rule_successive lineText currentLine
  ++ rule_abusage lineText currentLine
  ++ rule_kanji lineText currentLine
  ++ rule_ai lineText currentLine
  ++ rule_colon lineText currentLine.

Definition generateMockLintResult (text : jstr) : LintResult :=
  mk_result (lint_lines lint_line (split_lines text) 0).

End EngineFirst.

(** ** The Home page: error context *)

(** [/^[^\s、。，．！？!?,.　]+/]: the characters that end a highlighted
    word. *)
Definition is_word_stop (c : N) : bool :=
  is_space c || (c =? 12289)%N || (c =? 12290)%N || (c =? 65292)%N
  || (c =? 65294)%N || (c =? 65281)%N || (c =? 65311)%N || (c =? 33)%N
  || (c =? 63)%N || (c =? 44)%N || (c =? 46)%N || (c =? 12288)%N.

(** [wordMatch ? wordMatch[0].length : 1] on a rest of line. *)
Definition word_length (restOfLine : jstr) : Z :=
  let k := run (fun c => negb (is_word_stop c)) restOfLine in
  if Nat.eqb k 0 then 1 else Z.of_nat k.

Record ErrorContext := mkContext {
  before : jstr;
  error : jstr;
  after : jstr
}.

Definition ellipsis : jstr := js "...".

(** [lines[line - 1]] for [1 <= line <= lines.length]. *)
Definition line_at (lines : list jstr) (line : Z) : jstr :=
  nth (Z.to_nat (line - 1)) lines [].

Definition getErrorContext (text : jstr) (line column contextLength : Z)
  : ErrorContext :=
  let lines := split_lines text in
  if (line <? 1) || (Z.of_nat (length lines) <? line) then
    mkContext [] [] []
  else
    let lineText := line_at lines line in
    let errorStart := Z.max 0 (column - 1) in
    let restOfLine := substring1 lineText errorStart in
    let errorLength := word_length restOfLine in
    let errorEnd := errorStart + errorLength in
    let beforeStart := Z.max 0 (errorStart - contextLength) in
    let before := (if 0 <? beforeStart then ellipsis else [])
                  ++ substring lineText beforeStart errorStart in
    let error := substring lineText errorStart errorEnd in
    let afterEnd := Z.min (jlen lineText) (errorEnd + contextLength) in
    let after := substring lineText errorEnd afterEnd
                 ++ (if afterEnd <? jlen lineText then ellipsis else []) in
    mkContext before error after.

(** The call site: [getErrorContext(text, message.line, message.column)]. *)
Definition errorContext (text : jstr) (line column : Z) : ErrorContext :=
  getErrorContext text line column 20.

(** ** The Home page: rule and severity filter *)

Record Rule := mkRule {
  rule_id : jstr;
  rule_name : jstr;
  enabled : bool;
  category : jstr
}.

Inductive FilterType := FilterAll | FilterError | FilterWarning.

(** [rules.find(r => r.id === msg.ruleId)] *)
Definition find_rule (rules : list Rule) (rid : jstr) : option Rule :=
  find (fun r => jstr_eqb (rule_id r) rid) rules.

(** [filteredMessages]; [lintResult] is [null] before the first lint. *)
Definition filteredMessages (lintResult : option LintResult)
  (filter : FilterType) (rules : list Rule) : list TextlintMessage :=
  match lintResult with
  | None => []
  | Some r =>
      let ruleFiltered :=
        List.filter (fun msg =>
          match find_rule rules (ruleId msg) with
          | None => true
          | Some rule => enabled rule
          end) (messages r) in
      match filter with
      | FilterError => List.filter (fun msg => severity msg =? 2) ruleFiltered
      | FilterWarning => List.filter (fun msg => severity msg =? 1) ruleFiltered
      | FilterAll => ruleFiltered
      end
  end.

(** ** The Home page: debounced linting

    The effect on [[text, lintText, isTextlintLoading]] ([lintText] is a
    [useCallback] with no dependencies and [isTextlintLoading] is always
    [false], so it re-runs exactly when [text] changes):
    its cleanup clears the pending timer; on a blank text it schedules
    nothing, otherwise it sets a 300 ms timer that calls [lintText(text)],
    which runs the engine 100 ms later (a timer that is never cleared).
    Times are in milliseconds. *)

Record Pipeline := mkPipeline {
  cur_text : jstr;
  (** the pending 300 ms timer: its deadline and the text it captured *)
  pending : option (Z * jstr);
  (** engine runs so far: time and text *)
  invocations : list (Z * jstr)
}.

Definition debounceDelay : Z := 300.
Definition mockLatency : Z := 100.

(** Timers whose deadline is before [t] fire. *)
Definition fire_before (t : Z) (st : Pipeline) : Pipeline :=
  match pending st with
  | Some (d, s) =>
      if d <? t then
        mkPipeline (cur_text st) None (invocations st ++ [(d + mockLatency, s)])
      else st
  | None => st
  end.

(** [setText] at time [t]: the effect runs when the text changed. *)
Definition edit (t : Z) (s : jstr) (st : Pipeline) : Pipeline :=
  let st1 := fire_before t st in
  if jstr_eqb s (cur_text st1) then st1
  else mkPipeline s
         (if blank s then None else Some (t + debounceDelay, s))
         (invocations st1).

Fixpoint run_edits (edits : list (Z * jstr)) (st : Pipeline) : Pipeline :=
  match edits with
  | [] => st
  | (t, s) :: rest => run_edits rest (edit t s st)
  end.

(** No further edit: the pending timer, if any, fires. *)
Definition settle (st : Pipeline) : Pipeline :=
  match pending st with
  | Some (d, s) =>
      mkPipeline (cur_text st) None (invocations st ++ [(d + mockLatency, s)])
  | None => st
  end.

(** ** The Home page: rule settings

    The initial [rules] state of the page. *)
Definition defaultRules : list Rule :=
  [mkRule (js "no-exclamation-question-mark") (js "感嘆符・疑問符の禁止") true (js "technical");
   mkRule (js "ja-no-successive-word") (js "連続する単語") true (js "technical");
   mkRule (js "ja-no-redundant-expression") (js "冗長な表現") true (js "technical");
   mkRule (js "ja-no-weak-phrase") (js "弱い表現") true (js "technical");
   mkRule (js "no-doubled-joshi") (js "二重助詞") true (js "technical");
   mkRule (js "ja-no-abusage") (js "ら抜き言葉") true (js "technical");
   mkRule (js "no-ai-hype-expressions") (js "AI的な誇張表現") true (js "ai");
   mkRule (js "no-ai-list-formatting") (js "AI的なリスト書式") true (js "ai");
   mkRule (js "no-ai-emphasis-patterns") (js "AI的な強調パターン") true (js "ai");
   mkRule (js "no-ai-colon-continuation") (js "コロンの使用") true (js "ai")].

(** [toggleRule]: [prev.map(rule => rule.id === ruleId
    ? { ...rule, enabled: !rule.enabled } : rule)]. *)
Definition toggleRule (ruleId : jstr) (prev : list Rule) : list Rule :=
  map (fun rule =>
         if jstr_eqb (rule_id rule) ruleId
         then mkRule (rule_id rule) (rule_name rule) (negb (enabled rule))
                (category rule)
         else rule) prev.

(** The page's [errorCount] and [warningCount] memos, over
    [filteredMessages]. *)
Definition page_errorCount (filtered : list TextlintMessage) : nat :=
  length (filter (fun msg => severity msg =? 2) filtered).

Definition page_warningCount (filtered : list TextlintMessage) : nat :=
  length (filter (fun msg => severity msg =? 1) filtered).

(** ** The Home page: jumping to an error

    The part of [scrollToError] that computes the selection, once the
    textarea exists. The loop [for (let i = 0; i < line - 1 && i <
    lines.length; i++) charIndex += lines[i].length + 1]. *)
Fixpoint charIndex_loop (lines : list jstr) (i line charIndex : Z) : Z :=
  match lines with
  | [] => charIndex
  | l :: rest =>
      if i <? line - 1 then charIndex_loop rest (i + 1) line (charIndex + jlen l + 1)
      else charIndex
  end.

Record Selection := mkSelection {
  selectionStart : Z;
  selectionEnd : Z;
  selectedText : jstr;
  scrollTop : Z;
  displayText : jstr
}.

Definition scrollToError (text : jstr) (line column : Z) : Selection :=
  let lines := split_lines text in
  let charIndex := charIndex_loop lines 0 line 0 + (column - 1) in
  (* [lines[line - 1]?.substring(column - 1) || ''] *)
  let restOfLine :=
    if (1 <=? line) && (line <=? Z.of_nat (length lines))
    then substring1 (line_at lines line) (column - 1) else [] in
  let selectionLength := word_length restOfLine in
  let selectedText := substring text charIndex (charIndex + selectionLength) in
  let lineHeight := 24 in
  let scrollPosition := Z.max 0 ((line - 3) * lineHeight) in
  let displayText :=
    if 20 <? jlen selectedText then substring selectedText 0 20 ++ js "..."
    else selectedText in
  mkSelection charIndex (charIndex + selectionLength) selectedText
    scrollPosition displayText.

(** ** Auxiliary definitions for the proofs *)

(** The counters of a result agree with its messages, all of severity 1
    or 2. *)
Definition counts_ok (r : LintResult) : Prop :=
  errorCount r + warningCount r = Z.of_nat (length (messages r)) /\
  errorCount r = Z.of_nat (length (filter (fun m => severity m =? 2) (messages r))) /\
  warningCount r = Z.of_nat (length (filter (fun m => severity m =? 1) (messages r))) /\
  Forall (fun m => severity m = 1 \/ severity m = 2) (messages r).

(** Every message of [ms] carries one of the rule ids [rids], severity
    [sev] and line [n]. *)
Definition emits (rids : list jstr) (sev n : Z) (ms : list TextlintMessage)
  : Prop :=
  forall m, In m ms -> In (ruleId m) rids /\ severity m = sev /\ line m = n.

Definition is_rule (rid : jstr) (m : TextlintMessage) : bool :=
  jstr_eqb (ruleId m) rid.

Definition colon : N := 58.
Definition fullwidth_colon : N := 65306.

(** First occurrence of a code unit in a line. *)
Fixpoint first_occ (c : N) (l : jstr) : option nat :=
  match l with
  | [] => None
  | x :: r => if (x =? c)%N then Some O else option_map S (first_occ c r)
  end.

(** The later of the first occurrences of [':'] and ['：'] that exist. *)
Definition later_colon (l : jstr) : option nat :=
  match first_occ colon l, first_occ fullwidth_colon l with
  | Some a, Some b => Some (Nat.max a b)
  | Some a, None => Some a
  | None, Some b => Some b
  | None, None => None
  end.

(** The segments of a line between ['。']/['．'] with the offset of their
    start: each offset is the previous one plus the previous segment's
    length plus one for the consumed delimiter. *)
Fixpoint with_offsets (segs : list jstr) (off : nat) : list (nat * jstr) :=
  match segs with
  | [] => []
  | seg :: rest => (off, seg) :: with_offsets rest (off + length seg + 1)
  end.

Definition sentence_spans (l : jstr) : list (nat * jstr) :=
  with_offsets (split_on is_period l) 0.

(** One severity-2 diagnostic per segment longer than 100, at the
    1-based offset of its start. *)
Definition long_sentence_diags (l : jstr) (n : Z) : list TextlintMessage :=
  map (fun '(off, seg) =>
         lint_msg rid_sentence_length (sentence_length_msg (length seg))
           n (Z.of_nat off + 1) 2)
      (filter (fun '(_, seg) => Nat.ltb 100 (length seg)) (sentence_spans l)).

(** The characters [i..j) of a line, as plain list operations. *)
Definition sub (l : jstr) (i j : nat) : jstr := firstn (j - i) (skipn i l).

(** The word span of the resolver: from offset [column - 1], the longest
    run of non-boundary characters, or one character when that run is
    empty; clipped to the line. *)
Definition span_length (rest : jstr) : nat :=
  let k := run (fun c => negb (is_word_stop c)) rest in
  if Nat.eqb k 0 then 1%nat else k.

Definition resolved_span (l : jstr) (column : Z) : jstr :=
  let rest := skipn (Z.to_nat (column - 1)) l in
  firstn (span_length rest) rest.

(** Removing the ellipsis markers: a leading ["..."] of [before] and a
    trailing ["..."] of [after]. *)
Definition strip_leading_ellipsis (b : jstr) : jstr :=
  if is_prefix ellipsis b then skipn 3 b else b.

Definition strip_trailing_ellipsis (a : jstr) : jstr :=
  if is_prefix (rev ellipsis) (rev a) then firstn (length a - 3) a else a.

(** The pending timer, when there is one, holds the current text, and
    there is none exactly when the current text is blank. *)
Definition pending_ok (st : Pipeline) (lo : Z) : Prop :=
  match pending st with
  | Some (d, p) => p = cur_text st /\ lo <= d /\ blank p = false
  | None => blank (cur_text st) = true
  end.

(** A matcher only matches at a position inside the text. *)
Definition consumes {A} (M : matcher A) : Prop :=
  forall s i e c, M s i = Some (e, c) -> (i < length s)%nat.

(** Every message of [ms] has a column in [[1, w]]. *)
Definition cols_ok (w : nat) (ms : list TextlintMessage) : Prop :=
  forall m, In m ms -> 1 <= column m <= Z.of_nat w.

(** A message moved [k] lines down. *)
Definition shift_line (k : Z) (m : TextlintMessage) : TextlintMessage :=
  mkMessage (type m) (ruleId m) (message m) (line m + k) (column m) (severity m).

(** [text.split('\n')] undone: the lines joined with ['\n']. *)
Fixpoint join_lines (ls : list jstr) : jstr :=
  match ls with
  | [] => []
  | [l] => l
  | l :: rest => l ++ [10%N] ++ join_lines rest
  end.

(** Edits each changing the text and each arriving within the debounce
    delay of the previous one (at [t], with text [cur]). *)
Fixpoint changing_burst (t : Z) (cur : jstr) (edits : list (Z * jstr)) : Prop :=
  match edits with
  | [] => True
  | (t', s) :: rest =>
      t <= t' < t + debounceDelay /\ s <> cur /\ changing_burst t' s rest
  end.

(** The state right after a text change at [t]: a timer for [t + 300]
    on the current text, none when it is blank. *)
Definition just_edited (st : Pipeline) (t : Z) : Prop :=
  pending st = if blank (cur_text st) then None
               else Some (t + debounceDelay, cur_text st).

(** No blank text has reached the engine nor waits on the timer. *)
Definition no_blank_runs (st : Pipeline) : Prop :=
  Forall (fun p => blank (snd p) = false) (invocations st) /\
  (forall d p, pending st = Some (d, p) -> blank p = false).

(** The first [k] lines, each followed by its line break. *)
Definition lines_before (ls : list jstr) (k : nat) : jstr :=
  concat (map (fun l => l ++ [10%N]) (firstn k ls)).

(** The rule filter of [filteredMessages]: [!rule || rule.enabled]. *)
Definition visible (rs : list Rule) (m : TextlintMessage) : bool :=
  match find_rule rs (ruleId m) with
  | None => true
  | Some rule => enabled rule
  end.

(** [toggleRule] applied for each id of [ids] in turn. *)
Definition toggle_all (ids : list jstr) (rs : list Rule) : list Rule :=
  fold_left (fun acc rid => toggleRule rid acc) ids rs.

(** * Proofs *)

(** ** What each rule emits *)

Ltac crush_in :=
  repeat match goal with
  | H : In _ (map _ _) |- _ =>
      apply in_map_iff in H; destruct H as [? [? H]]; subst
  | H : In _ (flat_map _ _) |- _ =>
      apply in_flat_map in H; destruct H as [? [? H]]
  | H : In _ (_ ++ _) |- _ => apply in_app_or in H; destruct H as [H|H]
  | H : In _ [] |- _ => destruct H
  | H : In _ (_ :: _) |- _ => destruct H as [H|H]; [subst|]
  | x : (_ * _)%type |- _ => destruct x
  end.

Ltac solve_emits :=
  intros ? Hm; crush_in; simpl in *;
  repeat match goal with
  | H : In _ (if ?b then _ else _) |- _ => destruct b
  | H : In _ (match ?x with _ => _ end) |- _ => destruct x
  end; crush_in; simpl; intuition auto.

Lemma rule_exclamation_emits l n :
  emits [rid_exclamation] 2 n (rule_exclamation l n).
Proof. unfold rule_exclamation; solve_emits. Qed.

Lemma rule_redundant_emits l n : emits [rid_redundant] 1 n (rule_redundant l n).
Proof. unfold rule_redundant; solve_emits. Qed.

Lemma rule_weak_emits l n : emits [rid_weak] 1 n (rule_weak l n).
Proof. unfold rule_weak; solve_emits. Qed.

Lemma rule_doubled_joshi_emits l n :
  emits [rid_doubled_joshi] 1 n (rule_doubled_joshi l n).
Proof. unfold rule_doubled_joshi; solve_emits. Qed.

Lemma rule_successive_emits l n :
  emits [rid_successive] 2 n (rule_successive l n).
Proof. unfold rule_successive; solve_emits. Qed.

Lemma rule_abusage_emits l n : emits [rid_abusage] 1 n (rule_abusage l n).
Proof. unfold rule_abusage; solve_emits. Qed.

Lemma rule_kanji_emits l n : emits [rid_kanji] 1 n (rule_kanji l n).
Proof. unfold rule_kanji; solve_emits. Qed.

Lemma rule_ai_emits l n :
  emits [rid_hype; rid_list; rid_emphasis] 1 n (rule_ai l n).
Proof.
  unfold rule_ai; intros m Hm; apply in_flat_map in Hm.
  destruct Hm as [[pat rid] [Hp Hm]]; crush_in.
  simpl in Hp; simpl.
  intuition (try congruence); inversion H; subst; simpl; auto.
Qed.

Lemma rule_colon_emits l n : emits [rid_colon] 1 n (rule_colon l n).
Proof. unfold rule_colon; solve_emits. Qed.

Lemma sentences_loop_emits ss c n :
  emits [rid_sentence_length] 2 n (sentences_loop ss c n).
Proof.
  revert c; induction ss as [|s ss IH]; intros c m Hm; simpl in Hm.
  - destruct Hm.
  - apply in_app_or in Hm; destruct Hm as [Hm|Hm].
    + destruct (100 <? jlen s); crush_in; simpl; intuition auto.
    + apply (IH _ m Hm).
Qed.

Lemma rule_sentence_length_emits l n :
  emits [rid_sentence_length] 2 n (rule_sentence_length l n).
Proof. apply sentences_loop_emits. Qed.

Lemma EngineFirst_rule_sentence_length_emits l n :
  emits [rid_sentence_length] 2 n (EngineFirst.rule_sentence_length l n).
Proof. unfold EngineFirst.rule_sentence_length; solve_emits. Qed.

Lemma EngineFirst_rule_doubled_joshi_emits l n :
  emits [rid_doubled_joshi] 1 n (EngineFirst.rule_doubled_joshi l n).
Proof. unfold EngineFirst.rule_doubled_joshi; solve_emits. Qed.

Lemma EngineFirst_rule_successive_emits l n :
  emits [rid_successive] 2 n (EngineFirst.rule_successive l n).
Proof. unfold EngineFirst.rule_successive; solve_emits. Qed.

Lemma emits_filter_none rids sev n ms (f : TextlintMessage -> bool) :
  emits rids sev n ms ->
  (forall m, In (ruleId m) rids -> f m = false) ->
  filter f ms = [].
Proof.
  intros He Hf; induction ms as [|m ms IH]; simpl; auto.
  rewrite Hf by (apply (He m); left; auto).
  apply IH; intros m' Hm'; apply He; right; auto.
Qed.

Lemma emits_filter_all rids sev n ms (f : TextlintMessage -> bool) :
  emits rids sev n ms ->
  (forall m, In (ruleId m) rids -> f m = true) ->
  filter f ms = ms.
Proof.
  intros He Hf; induction ms as [|m ms IH]; simpl; auto.
  rewrite Hf by (apply (He m); left; auto).
  f_equal; apply IH; intros m' Hm'; apply He; right; auto.
Qed.

Lemma emits_app rids1 rids2 sev1 sev2 n ms1 ms2 :
  emits rids1 sev1 n ms1 -> emits rids2 sev2 n ms2 ->
  forall m, In m (ms1 ++ ms2) ->
  (In (ruleId m) rids1 /\ severity m = sev1
   \/ In (ruleId m) rids2 /\ severity m = sev2) /\ line m = n.
Proof.
  intros H1 H2 m Hm; apply in_app_or in Hm as [Hm|Hm];
    [destruct (H1 m Hm) | destruct (H2 m Hm)]; intuition auto.
Qed.

Lemma jstr_eqb_refl a : jstr_eqb a a = true.
Proof. unfold jstr_eqb; destruct (list_eq_dec N.eq_dec a a); congruence. Qed.

Lemma jstr_eqb_eq a b : jstr_eqb a b = true <-> a = b.
Proof. unfold jstr_eqb; destruct (list_eq_dec N.eq_dec a b); intuition congruence. Qed.

(** The rule ids, the colon one against the others. *)
Lemma rid_colon_fresh r :
  In r [rid_exclamation; rid_sentence_length; rid_redundant; rid_weak;
        rid_doubled_joshi; rid_successive; rid_abusage; rid_kanji;
        rid_hype; rid_list; rid_emphasis] ->
  jstr_eqb r rid_colon = false.
Proof. intros H; repeat (destruct H as [<-|H]; [reflexivity|]); destruct H. Qed.

Lemma rid_sentence_length_fresh r :
  In r [rid_exclamation; rid_redundant; rid_weak;
        rid_doubled_joshi; rid_successive; rid_abusage; rid_kanji;
        rid_hype; rid_list; rid_emphasis; rid_colon] ->
  jstr_eqb r rid_sentence_length = false.
Proof. intros H; repeat (destruct H as [<-|H]; [reflexivity|]); destruct H. Qed.

(** Removing a rule's messages from a filter on another rule id. *)
Ltac drop_rule E :=
  rewrite (emits_filter_none _ _ _ _ _ E)
    by (let m := fresh "m" in let Hm := fresh "Hm" in
        intros m Hm; unfold is_rule;
        first [ apply rid_colon_fresh | apply rid_sentence_length_fresh ];
        cbn [In] in Hm |- *; tauto).

Ltac keep_rule E :=
  rewrite (emits_filter_all _ _ _ _ _ E)
    by (let m := fresh "m" in let Hm := fresh "Hm" in
        intros m Hm; cbn [In] in Hm; destruct Hm as [Hm|[]]; unfold is_rule;
        rewrite <- Hm; apply jstr_eqb_refl).

(** Replaces a rule's output by a variable, keeping what it emits. *)
Ltac abstract_rule E :=
  let a := fresh "a" in
  lazymatch type of E with
  | emits _ _ _ ?t => set (a := t) in *; clearbody a
  end.

Ltac rule_facts l n :=
  pose proof (rule_exclamation_emits l n) as E1;
  pose proof (rule_redundant_emits l n) as E3;
  pose proof (rule_weak_emits l n) as E4;
  pose proof (rule_abusage_emits l n) as E7;
  pose proof (rule_kanji_emits l n) as E8;
  pose proof (rule_ai_emits l n) as E9;
  pose proof (rule_colon_emits l n) as E10;
  abstract_rule E1; abstract_rule E3; abstract_rule E4; abstract_rule E7;
  abstract_rule E8; abstract_rule E9; abstract_rule E10.

Ltac engine_facts l n :=
  pose proof (rule_sentence_length_emits l n) as E2;
  pose proof (rule_doubled_joshi_emits l n) as E5;
  pose proof (rule_successive_emits l n) as E6;
  abstract_rule E2; abstract_rule E5; abstract_rule E6;
  rule_facts l n.

Ltac engine_first_facts l n :=
  pose proof (EngineFirst_rule_sentence_length_emits l n) as E2;
  pose proof (EngineFirst_rule_doubled_joshi_emits l n) as E5;
  pose proof (EngineFirst_rule_successive_emits l n) as E6;
  abstract_rule E2; abstract_rule E5; abstract_rule E6;
  rule_facts l n.

Lemma Engine_lint_line_colon l n :
  filter (is_rule rid_colon) (Engine.lint_line l n) = rule_colon l n.
Proof.
  unfold Engine.lint_line; engine_facts l n; rewrite !filter_app.
  drop_rule E1. drop_rule E2. drop_rule E3. drop_rule E4. drop_rule E5.
  drop_rule E6. drop_rule E7. drop_rule E8. drop_rule E9. keep_rule E10.
  reflexivity.
Qed.

Lemma EngineFirst_lint_line_colon l n :
  filter (is_rule rid_colon) (EngineFirst.lint_line l n) = rule_colon l n.
Proof.
  unfold EngineFirst.lint_line; engine_first_facts l n; rewrite !filter_app.
  drop_rule E1. drop_rule E2. drop_rule E3. drop_rule E4. drop_rule E5.
  drop_rule E6. drop_rule E7. drop_rule E8. drop_rule E9. keep_rule E10.
  reflexivity.
Qed.

Lemma Engine_lint_line_sentence_length l n :
  filter (is_rule rid_sentence_length) (Engine.lint_line l n)
  = rule_sentence_length l n.
Proof.
  unfold Engine.lint_line; engine_facts l n; rewrite !filter_app.
  drop_rule E1. keep_rule E2. drop_rule E3. drop_rule E4. drop_rule E5.
  drop_rule E6. drop_rule E7. drop_rule E8. drop_rule E9. drop_rule E10.
  rewrite !app_nil_r; reflexivity.
Qed.

(** Severity and line of every message of a line. *)
Ltac in_rules :=
  repeat match goal with
  | H : In _ (_ ++ _) |- _ => apply in_app_or in H; destruct H as [H|H]
  end;
  match goal with
  | H : In ?m ?a, E : emits _ ?s _ ?a |- _ =>
      destruct (E m H) as (_ & -> & ->); auto
  end.

Lemma Engine_lint_line_msg l n m :
  In m (Engine.lint_line l n) ->
  (severity m = 1 \/ severity m = 2) /\ line m = n.
Proof. unfold Engine.lint_line; engine_facts l n; intros H; in_rules. Qed.

Lemma EngineFirst_lint_line_msg l n m :
  In m (EngineFirst.lint_line l n) ->
  (severity m = 1 \/ severity m = 2) /\ line m = n.
Proof. unfold EngineFirst.lint_line; engine_first_facts l n; intros H; in_rules. Qed.

(** ** From lines to the whole text *)

Lemma filter_none {A} (f : A -> bool) (l : list A) :
  (forall x, In x l -> f x = false) -> filter f l = [].
Proof.
  induction l as [|x l IH]; simpl; intros H; auto.
  rewrite H by auto; apply IH; auto.
Qed.

Section Lines.

Variable lint_line : jstr -> Z -> list TextlintMessage.
Hypothesis lint_line_line : forall l n m, In m (lint_line l n) -> line m = n.

Lemma lint_lines_in ls i m :
  In m (lint_lines lint_line ls i) ->
  exists k l, nth_error ls k = Some l /\ In m (lint_line l (Z.of_nat (i + k) + 1)).
Proof.
  revert i; induction ls as [|l ls IH]; intros i H; simpl in H; [destruct H|].
  apply in_app_or in H as [H|H].
  - exists O, l; rewrite Nat.add_0_r; auto.
  - destruct (IH _ H) as (k & l' & Hk & Hm).
    exists (S k), l'; split; auto.
    replace (i + S k)%nat with (S i + k)%nat by lia; auto.
Qed.

Lemma lint_lines_line_ge ls i m :
  In m (lint_lines lint_line ls i) -> Z.of_nat i + 1 <= line m.
Proof.
  intros H; destruct (lint_lines_in _ _ _ H) as (k & l & _ & Hm).
  rewrite (lint_line_line _ _ _ Hm); lia.
Qed.

Lemma lint_lines_at (f : TextlintMessage -> bool) ls i k l :
  nth_error ls k = Some l ->
  filter (fun m => f m && (line m =? Z.of_nat (i + k) + 1))
    (lint_lines lint_line ls i)
  = filter f (lint_line l (Z.of_nat (i + k) + 1)).
Proof.
  revert i k; induction ls as [|a ls IH]; intros i k Hk.
  - destruct k; discriminate.
  - simpl; rewrite filter_app; destruct k as [|k]; simpl in Hk.
    + injection Hk as <-; rewrite Nat.add_0_r.
      rewrite (filter_none _ (lint_lines _ _ _)), app_nil_r.
      * apply filter_ext_in; intros m Hm.
        rewrite (lint_line_line _ _ _ Hm), Z.eqb_refl, andb_true_r; auto.
      * intros m Hm; apply lint_lines_line_ge in Hm.
        rewrite andb_false_iff; right; apply Z.eqb_neq; lia.
    + rewrite filter_none.
      * replace (i + S k)%nat with (S i + k)%nat by lia; apply IH; auto.
      * intros m Hm; rewrite (lint_line_line _ _ _ Hm).
        rewrite andb_false_iff; right; apply Z.eqb_neq; lia.
Qed.

End Lines.

(** ** Colons *)

Lemma index_of_from_single c l i :
  index_of_from [c] l i =
  match first_occ c l with Some k => i + Z.of_nat k | None => -1 end.
Proof.
  revert i; induction l as [|x l IH]; intros i; simpl; auto.
  rewrite andb_true_r, N.eqb_sym.
  destruct (x =? c)%N; [lia|].
  rewrite IH; destruct (first_occ c l); simpl; auto; lia.
Qed.

Lemma first_occ_in c l : first_occ c l <> None <-> In c l.
Proof.
  induction l as [|x l IH]; simpl; [intuition congruence|].
  destruct (N.eqb_spec x c); [intuition congruence|].
  destruct (first_occ c l); simpl; intuition (try congruence).
Qed.

Lemma rule_colon_spec l n :
  In colon l \/ In fullwidth_colon l ->
  exists pos, later_colon l = Some pos /\
    rule_colon l n =
      [lint_msg rid_colon (js "コロンの使用は避けてください") n
         (Z.of_nat pos + 1) 1].
Proof.
  intros Hin; unfold rule_colon, includes, index_of, later_colon.
  change (js ":") with [colon]; change (js "：") with [fullwidth_colon].
  rewrite !index_of_from_single.
  rewrite <- !first_occ_in in Hin.
  destruct (first_occ colon l) as [a|], (first_occ fullwidth_colon l) as [b|];
    try (exfalso; tauto).
  - exists (Nat.max a b); split; auto.
    replace (0 <=? 0 + Z.of_nat a) with true by (symmetry; apply Z.leb_le; lia).
    simpl; do 3 f_equal; lia.
  - exists a; split; auto.
    replace (0 <=? 0 + Z.of_nat a) with true by (symmetry; apply Z.leb_le; lia).
    simpl; do 3 f_equal; lia.
  - exists b; split; auto.
    replace (0 <=? 0 + Z.of_nat b) with true by (symmetry; apply Z.leb_le; lia).
    rewrite orb_true_r; simpl; do 3 f_equal; lia.
Qed.


(** ** Counts *)

Lemma count_sev_split ms :
  Forall (fun m => severity m = 1 \/ severity m = 2) ms ->
  count_sev 2 ms + count_sev 1 ms = Z.of_nat (length ms).
Proof.
  intros H; unfold count_sev; rewrite <- Nat2Z.inj_add; f_equal.
  induction H as [|m ms Hm _ IH]; simpl; auto.
  destruct Hm as [Hs|Hs]; rewrite Hs; simpl; lia.
Qed.

Lemma lint_lines_sev lint_line ls i :
  (forall l n m, In m (lint_line l n) ->
     (severity m = 1 \/ severity m = 2) /\ line m = n) ->
  Forall (fun m => severity m = 1 \/ severity m = 2)
    (lint_lines lint_line ls i).
Proof.
  intros H; apply Forall_forall; intros m Hm.
  destruct (lint_lines_in _ _ _ _ Hm) as (k & l & _ & Hm').
  apply (H _ _ _ Hm').
Qed.

Lemma mk_result_counts ms :
  Forall (fun m => severity m = 1 \/ severity m = 2) ms ->
  counts_ok (mk_result ms).
Proof.
  intros H; unfold counts_ok; simpl; split; [apply count_sev_split; auto|].
  repeat split; auto.
Qed.

(** ** Sentence length *)

Lemma sentences_loop_offsets segs off n :
  sentences_loop segs (Z.of_nat off + 1) n =
  map (fun '(off, seg) =>
         lint_msg rid_sentence_length (sentence_length_msg (length seg))
           n (Z.of_nat off + 1) 2)
      (filter (fun '(_, seg) => Nat.ltb 100 (length seg)) (with_offsets segs off)).
Proof.
  revert off; induction segs as [|s segs IH]; intros off; simpl; auto.
  unfold jlen.
  replace (100 <? Z.of_nat (length s)) with (Nat.ltb 100 (length s))
    by (destruct (Nat.ltb_spec 100 (length s)), (Z.ltb_spec 100 (Z.of_nat (length s)));
        auto; lia).
  replace (Z.of_nat off + 1 + Z.of_nat (length s) + 1)
    with (Z.of_nat (off + length s + 1) + 1) by lia.
  rewrite IH; destruct (Nat.ltb 100 (length s)); reflexivity.
Qed.

Lemma split_on_cons p l : exists w ws, split_on p l = w :: ws.
Proof.
  destruct l as [|c r]; simpl; [eauto|].
  destruct (p c); [eauto|]; destruct (split_on p r); eauto.
Qed.

Lemma split_on_none p l : forallb (fun c => negb (p c)) l = true -> split_on p l = [l].
Proof.
  induction l as [|c r IH]; simpl; auto.
  intros H; apply andb_true_iff in H as [Hc Hr].
  destruct (p c); [discriminate|]; rewrite IH; auto.
Qed.

Lemma with_offsets_snd segs off : map snd (with_offsets segs off) = segs.
Proof.
  revert off; induction segs; intros; simpl; f_equal; auto.
Qed.

Lemma with_offsets_positions p l off o seg :
  In (o, seg) (with_offsets (split_on p l) off) ->
  (off <= o)%nat /\ firstn (length seg) (skipn (o - off) l) = seg.
Proof.
  revert off o seg; induction l as [|c r IH]; intros off o seg H; simpl in H.
  - destruct H as [H|[]]; injection H as <- <-; split; auto.
  - destruct (p c); simpl in H.
    + destruct H as [H|H].
      * injection H as <- <-; split; auto.
      * destruct (IH _ _ _ H) as [Ho Hs]; split; [lia|].
        replace (o - off)%nat with (S (o - (off + 0 + 1))) by lia; exact Hs.
    + destruct (split_on_cons p r) as (w & ws & Hw).
      rewrite Hw in H; simpl in H.
      assert (IH' : forall o' seg',
                 In (o', seg') ((S off, w) :: with_offsets ws (S off + length w + 1)) ->
                 (S off <= o')%nat /\
                 firstn (length seg') (skipn (o' - S off) r) = seg').
      { intros o' seg' H'; apply IH; rewrite Hw; exact H'. }
      destruct H as [H|H].
      * injection H as <- <-; split; auto.
        rewrite Nat.sub_diag; simpl; f_equal.
        destruct (IH' (S off) w (or_introl eq_refl)) as [_ Hs].
        rewrite Nat.sub_diag in Hs; exact Hs.
      * replace (off + S (length w) + 1)%nat with (S off + length w + 1)%nat in H
          by lia.
        destruct (IH' _ _ (or_intror H)) as [Ho Hs]; split; [lia|].
        replace (o - off)%nat with (S (o - S off)) by lia; exact Hs.
Qed.

(** ** Error context *)

Lemma firstn_plus (a b : nat) (s : jstr) :
  firstn (a + b) s = firstn a s ++ firstn b (skipn a s).
Proof.
  revert s; induction a as [|a IH]; intros s; simpl; auto.
  destruct s; simpl; [destruct b; auto|f_equal; auto].
Qed.

Lemma sub_app l i j k :
  (i <= j <= k)%nat -> sub l i j ++ sub l j k = sub l i k.
Proof.
  intros H; unfold sub.
  replace (k - i)%nat with ((j - i) + (k - j))%nat by lia.
  rewrite firstn_plus, skipn_skipn.
  replace (j - i + i)%nat with j by lia; reflexivity.
Qed.

Lemma sub_contig l i j : exists pre post, l = pre ++ sub l i j ++ post.
Proof.
  exists (firstn i l), (skipn (j - i) (skipn i l)); unfold sub.
  rewrite firstn_skipn, firstn_skipn; reflexivity.
Qed.

Lemma firstn_min_length (k : nat) (s : jstr) :
  firstn (Nat.min k (length s)) s = firstn k s.
Proof.
  revert s; induction k as [|k IH]; intros [|x s]; simpl; auto.
  f_equal; apply IH.
Qed.

Lemma sub_clamped l i k :
  sub l (Nat.min i (length l)) (Nat.min (i + k) (length l)) = firstn k (skipn i l).
Proof.
  unfold sub; destruct (Nat.le_gt_cases (length l) i) as [Hle|Hgt].
  - rewrite (@skipn_all2 _ i l) by lia.
    rewrite (Nat.min_r i) by lia.
    rewrite (@skipn_all2 _ (length l) l) by lia; rewrite !firstn_nil; auto.
  - rewrite (Nat.min_l i) by lia.
    rewrite <- (firstn_min_length k), length_skipn.
    f_equal; lia.
Qed.

Lemma clamp_mono x y len :
  x <= y -> (clampZ x len <= clampZ y len)%nat.
Proof. intros H; unfold clampZ; apply Z2Nat.inj_le; lia. Qed.

Lemma substring_sub l a b :
  (clampZ a (jlen l) <= clampZ b (jlen l))%nat ->
  substring l a b = sub l (clampZ a (jlen l)) (clampZ b (jlen l)).
Proof.
  intros H; unfold substring, sub; rewrite Nat.min_l, Nat.max_r by exact H; auto.
Qed.

Lemma clampZ_nat (x : Z) (l : jstr) :
  0 <= x -> clampZ x (jlen l) = Nat.min (Z.to_nat x) (length l).
Proof.
  intros H; unfold clampZ, jlen.
  rewrite Z.max_r by lia; rewrite Z2Nat.inj_min, Nat2Z.id; auto.
Qed.

Lemma substring1_skipn l a : 0 <= a -> substring1 l a = skipn (Z.to_nat a) l.
Proof.
  intros Ha; unfold substring1.
  rewrite substring_sub.
  - unfold sub.
    replace (clampZ (jlen l) (jlen l)) with (length l)
      by (unfold clampZ, jlen; rewrite Z.min_id, Z.max_r by lia; symmetry; apply Nat2Z.id).
    rewrite (clampZ_nat a) by lia.
    rewrite firstn_all2 by (rewrite length_skipn; lia).
    destruct (Nat.le_gt_cases (length l) (Z.to_nat a)) as [H|H].
    + rewrite (@skipn_all2 _ (Z.to_nat a) l H).
      apply skipn_all2, Nat.min_glb; [exact H | apply le_n].
    + rewrite Nat.min_l by lia; auto.
  - unfold clampZ, jlen; apply Z2Nat.inj_le; lia.
Qed.

Lemma word_length_span r : word_length r = Z.of_nat (span_length r).
Proof.
  unfold word_length, span_length; destruct (Nat.eqb _ 0); auto.
Qed.

Lemma span_length_pos r : (1 <= span_length r)%nat.
Proof.
  unfold span_length; destruct (Nat.eqb_spec (run (fun c => negb (is_word_stop c)) r) 0);
    lia.
Qed.

Lemma strip_leading_ellipsis_suffix (t : bool) X :
  exists u, X = u ++ strip_leading_ellipsis ((if t then ellipsis else []) ++ X).
Proof.
  unfold strip_leading_ellipsis; destruct t.
  - exists []; reflexivity.
  - rewrite app_nil_l; destruct (is_prefix ellipsis X).
    + exists (firstn 3 X); rewrite firstn_skipn; auto.
    + exists []; auto.
Qed.

Lemma is_prefix_app p s : is_prefix p (p ++ s) = true.
Proof. induction p; simpl; auto; rewrite N.eqb_refl; auto. Qed.

Lemma strip_trailing_ellipsis_prefix (t : bool) Y :
  exists v, Y = strip_trailing_ellipsis (Y ++ (if t then ellipsis else [])) ++ v.
Proof.
  unfold strip_trailing_ellipsis; destruct t.
  - exists []; rewrite rev_app_distr, is_prefix_app, app_nil_r, length_app.
    replace (length Y + length ellipsis - 3)%nat with (length Y) by (simpl; lia).
    rewrite firstn_app, Nat.sub_diag, firstn_all; simpl; rewrite app_nil_r; auto.
  - rewrite app_nil_r; destruct (is_prefix (rev ellipsis) (rev Y)).
    + exists (skipn (length Y - 3) Y); rewrite firstn_skipn; auto.
    + exists []; rewrite app_nil_r; auto.
Qed.

(** The three parts of a context, for a line in range and
    [contextLength >= 0]: an optional ellipsis and [l[bs..es)], then
    [l[es..ee)], then [l[ee..ae)] and an optional ellipsis. *)
Lemma getErrorContext_parts text line column cl :
  1 <= line <= Z.of_nat (length (split_lines text)) -> 0 <= cl ->
  let l := line_at (split_lines text) line in
  let ctx := getErrorContext text line column cl in
  exists (tb ta : bool) (bs es ee ae : nat),
    (bs <= es)%nat /\ (es <= ee)%nat /\ (ee <= ae)%nat /\
    before ctx = (if tb then ellipsis else []) ++ sub l bs es /\
    error ctx = sub l es ee /\
    after ctx = sub l ee ae ++ (if ta then ellipsis else []) /\
    error ctx = resolved_span l column.
Proof.
  intros Hline Hcl l ctx; subst ctx; unfold getErrorContext.
  replace ((line <? 1) || (Z.of_nat (length (split_lines text)) <? line))
    with false by (symmetry; apply orb_false_iff; split; apply Z.ltb_ge; lia).
  fold l; cbn [before error after].
  set (es := Z.max 0 (column - 1)).
  rewrite substring1_skipn by lia.
  rewrite word_length_span.
  set (sp := span_length (skipn (Z.to_nat es) l)).
  assert (Hsp : (1 <= sp)%nat) by apply span_length_pos.
  set (bs := Z.max 0 (es - cl)).
  set (ee := es + Z.of_nat sp).
  set (ae := Z.min (jlen l) (ee + cl)).
  assert (H1 : (clampZ bs (jlen l) <= clampZ es (jlen l))%nat)
    by (apply clamp_mono; lia).
  assert (H2 : (clampZ es (jlen l) <= clampZ ee (jlen l))%nat)
    by (apply clamp_mono; lia).
  assert (H3 : (clampZ ee (jlen l) <= clampZ ae (jlen l))%nat)
    by (unfold clampZ, ae, jlen; apply Z2Nat.inj_le; lia).
  rewrite !substring_sub by assumption.
  exists (0 <? bs), (ae <? jlen l),
    (clampZ bs (jlen l)), (clampZ es (jlen l)), (clampZ ee (jlen l)),
    (clampZ ae (jlen l)).
  repeat split; auto.
  unfold resolved_span.
  replace (Z.to_nat (column - 1)) with (Z.to_nat es) by (unfold es; lia).
  fold sp.
  rewrite (clampZ_nat es), (clampZ_nat ee) by lia.
  unfold ee; rewrite Z2Nat.inj_add, Nat2Z.id by lia.
  apply sub_clamped.
Qed.

Lemma errorContext_roundtrip text line column :
  1 <= line <= Z.of_nat (length (split_lines text)) ->
  let l := line_at (split_lines text) line in
  let ctx := errorContext text line column in
  (exists pre post,
     l = pre ++ strip_leading_ellipsis (before ctx) ++ error ctx
         ++ strip_trailing_ellipsis (after ctx) ++ post)
  /\ error ctx = resolved_span l column.
Proof.
  intros Hline l ctx.
  destruct (getErrorContext_parts text line column 20 Hline ltac:(lia))
    as (tb & ta & bs & es & ee & ae & Hle1 & Hle2 & Hle3 & Hb & He & Ha & Hr).
  fold l in Hb, He, Ha, Hr.
  split; [|exact Hr].
  unfold ctx, errorContext; rewrite Hb, He, Ha.
  destruct (strip_leading_ellipsis_suffix tb (sub l bs es)) as [u Hu].
  destruct (strip_trailing_ellipsis_prefix ta (sub l ee ae)) as [v Hv].
  destruct (sub_contig l bs ae) as (pre & post & Hl).
  rewrite <- (sub_app l bs es ae), <- (sub_app l es ee ae) in Hl by lia.
  rewrite Hu, Hv in Hl.
  exists (pre ++ u), (v ++ post).
  rewrite Hl at 1; rewrite <- !app_assoc; reflexivity.
Qed.

Lemma errorContext_span text line column :
  1 <= line <= Z.of_nat (length (split_lines text)) ->
  let l := line_at (split_lines text) line in
  1 <= column <= jlen l + 1 ->
  let errorLength := word_length (substring1 l (Z.max 0 (column - 1))) in
  1 <= errorLength
  /\ (forall c r, substring1 l (Z.max 0 (column - 1)) = c :: r ->
        is_word_stop c = true -> errorLength = 1)
  /\ (column <= jlen l ->
        length (error (errorContext text line column)) = Z.to_nat errorLength
        /\ error (errorContext text line column) <> [])
  /\ (column = jlen l + 1 -> error (errorContext text line column) = []).
Proof.
  intros Hline l Hcol errorLength.
  destruct (getErrorContext_parts text line column 20 Hline ltac:(lia))
    as (tb & ta & bs & es & ee & ae & _ & _ & _ & _ & _ & _ & Hr).
  fold l in Hr; fold (errorContext text line column) in Hr.
  unfold errorLength; rewrite substring1_skipn by lia.
  replace (Z.to_nat (Z.max 0 (column - 1))) with (Z.to_nat (column - 1)) by lia.
  rewrite word_length_span.
  set (rest := skipn (Z.to_nat (column - 1)) l) in *.
  pose proof (span_length_pos rest) as Hpos.
  unfold resolved_span in Hr; fold rest in Hr.
  split; [lia|]. split; [|split].
  - intros c r Hc Hs; unfold span_length; rewrite Hc; simpl; rewrite Hs; auto.
  - intros Hle; rewrite Hr, Nat2Z.id.
    assert (Hlen : (1 <= length rest)%nat)
      by (unfold rest; rewrite length_skipn; unfold jlen in Hle; lia).
    rewrite length_firstn; split; [|].
    + unfold span_length.
      destruct (Nat.eqb_spec (run (fun c => negb (is_word_stop c)) rest) 0) as [E|E];
        [lia|].
      enough ((run (fun c => negb (is_word_stop c)) rest <= length rest)%nat) by lia.
      clear; induction rest as [|x r IH]; simpl; [lia|].
      destruct (negb (is_word_stop x)); simpl; lia.
    + destruct rest as [|x r]; simpl in Hlen; [lia|].
      destruct (span_length (x :: r)) as [|k]; [lia|]; discriminate.
  - intros Heq; rewrite Hr.
    replace rest with (@nil N) by (unfold rest; symmetry; apply skipn_all2;
                                    unfold jlen in Heq; lia).
    destruct (span_length []); reflexivity.
Qed.

(** ** Filter *)

Lemma filteredMessages_all msgs ec wc rules :
  Forall (fun r => enabled r = true) rules ->
  filteredMessages (Some (mkLintResult msgs ec wc)) FilterAll rules = msgs.
Proof.
  intros Hen; simpl.
  apply forallb_filter_id, forallb_forall; intros m _.
  destruct (find_rule rules (ruleId m)) as [r|] eqn:Hf; auto.
  apply find_some in Hf as [Hr _].
  rewrite Forall_forall in Hen; apply Hen; auto.
Qed.

(** ** Debounce *)

Lemma jstr_eqb_neq a b : a <> b -> jstr_eqb a b = false.
Proof. intros H; destruct (jstr_eqb a b) eqn:E; auto; apply jstr_eqb_eq in E; congruence. Qed.

(** An edit before the pending deadline with a new, non-blank text
    replaces the pending timer; with a new blank text it cancels it. *)
Lemma edit_replaces st t s :
  (forall d p, pending st = Some (d, p) -> t <= d) ->
  s <> cur_text st ->
  edit t s st =
  mkPipeline s (if blank s then None else Some (t + debounceDelay, s))
    (invocations st).
Proof.
  intros Hd Hs; unfold edit, fire_before.
  destruct (pending st) as [[d p]|] eqn:Hp.
  - specialize (Hd d p eq_refl).
    replace (d <? t) with false by (symmetry; apply Z.ltb_ge; lia).
    rewrite jstr_eqb_neq by auto; reflexivity.
  - rewrite jstr_eqb_neq by auto; reflexivity.
Qed.

(** An edit that leaves the text as it is does nothing before the
    pending deadline. *)
Lemma edit_same st t :
  (forall d p, pending st = Some (d, p) -> t <= d) ->
  edit t (cur_text st) st = st.
Proof.
  intros Hd; unfold edit, fire_before.
  destruct (pending st) as [[d p]|] eqn:Hp.
  - specialize (Hd d p eq_refl).
    replace (d <? t) with false by (symmetry; apply Z.ltb_ge; lia).
    rewrite jstr_eqb_refl; reflexivity.
  - rewrite jstr_eqb_refl; reflexivity.
Qed.

Lemma edit_pending_ok st t t' s :
  pending_ok st t' -> t <= t' -> t' <= t + debounceDelay ->
  (forall d p, pending st = Some (d, p) -> t <= d) ->
  pending_ok (edit t s st) t' /\ invocations (edit t s st) = invocations st
  /\ cur_text (edit t s st) = s.
Proof.
  intros Hok Ht1 Ht2 Hd.
  destruct (list_eq_dec N.eq_dec s (cur_text st)) as [->|Hs].
  - rewrite edit_same by auto; auto.
  - rewrite edit_replaces by auto; unfold pending_ok; simpl.
    destruct (blank s) eqn:Hb; simpl; auto.
Qed.

Lemma pending_ok_deadline st lo t :
  pending_ok st lo -> t <= lo -> forall d p, pending st = Some (d, p) -> t <= d.
Proof.
  unfold pending_ok; intros Hok Ht d p Hp; rewrite Hp in Hok; lia.
Qed.

Lemma three_edits t st0 s1 s2 s3 :
  pending st0 = None -> s1 <> cur_text st0 -> blank s3 = false ->
  exists d,
    invocations (settle (run_edits [(t, s1); (t + 50, s2); (t + 100, s3)] st0))
    = invocations st0 ++ [(d, s3)].
Proof.
  intros Hp0 Hs1 Hb3; simpl.
  set (st1 := edit t s1 st0).
  assert (Hok1 : pending_ok st1 (t + 100) /\ invocations st1 = invocations st0).
  { unfold st1; rewrite edit_replaces; auto.
    - unfold pending_ok; simpl; destruct (blank s1) eqn:Hb; simpl; auto.
      unfold debounceDelay; repeat split; auto; lia.
    - intros d p Hp; rewrite Hp0 in Hp; discriminate. }
  destruct Hok1 as [Hok1 Hi1].
  destruct (edit_pending_ok st1 (t + 50) (t + 100) s2 Hok1 ltac:(lia)
              ltac:(unfold debounceDelay; lia)
              (pending_ok_deadline st1 (t + 100) (t + 50) Hok1 ltac:(lia)))
    as (Hok2 & Hi2 & _).
  set (st2 := edit (t + 50) s2 st1) in *.
  destruct (edit_pending_ok st2 (t + 100) (t + 100) s3 Hok2 ltac:(lia)
              ltac:(unfold debounceDelay; lia)
              (pending_ok_deadline st2 (t + 100) (t + 100) Hok2 ltac:(lia)))
    as (Hok3 & Hi3 & Hc3).
  set (st3 := edit (t + 100) s3 st2) in *.
  unfold pending_ok in Hok3; unfold settle.
  destruct (pending st3) as [[d p]|].
  - destruct Hok3 as (-> & _ & _); rewrite Hc3.
    exists (d + mockLatency); simpl; rewrite Hi3, Hi2, Hi1; reflexivity.
  - rewrite Hc3 in Hok3; congruence.
Qed.

(** * The specification's claims *)

(** ** Colons *)

(** C1: on every line that contains [':'] or ['：'], both copies of
    [generateMockLintResult] give exactly one [no-ai-colon-continuation]
    diagnostic, at column (later of the two first occurrences) + 1; with
    [':'] first at index 5 and ['：'] first at index 10 that column is 11. *)
Theorem colon_one_per_line text k l :
  nth_error (split_lines text) k = Some l ->
  In colon l \/ In fullwidth_colon l ->
  exists pos m,
    later_colon l = Some pos /\
    filter (fun m => is_rule rid_colon m && (line m =? Z.of_nat k + 1))
      (messages (Engine.generateMockLintResult text)) = [m] /\
    filter (fun m => is_rule rid_colon m && (line m =? Z.of_nat k + 1))
      (messages (EngineFirst.generateMockLintResult text)) = [m] /\
    column m = Z.of_nat pos + 1 /\
    (first_occ colon l = Some 5%nat -> first_occ fullwidth_colon l = Some 10%nat ->
     column m = 11).
Proof.
  intros Hk Hin.
  unfold Engine.generateMockLintResult, EngineFirst.generateMockLintResult, mk_result.
  cbn [messages].
  change (Z.of_nat k) with (Z.of_nat (0 + k)).
  rewrite (lint_lines_at Engine.lint_line
             (fun l n m H => proj2 (Engine_lint_line_msg l n m H)) _ _ _ _ _ Hk).
  rewrite (lint_lines_at EngineFirst.lint_line
             (fun l n m H => proj2 (EngineFirst_lint_line_msg l n m H)) _ _ _ _ _ Hk).
  rewrite Engine_lint_line_colon, EngineFirst_lint_line_colon.
  destruct (rule_colon_spec l (Z.of_nat (0 + k) + 1) Hin) as (pos & Hp & ->).
  exists pos; eexists; split; [exact Hp|].
  split; [reflexivity|]; split; [reflexivity|]; split; [reflexivity|].
  intros Ha Hb; unfold later_colon in Hp; rewrite Ha, Hb in Hp.
    injection Hp as <-; reflexivity.
Qed.

Lemma colon_one_per_line_witness :
  exists pos m,
    later_colon (js "abcde:fghi：x") = Some pos /\
    filter (fun m => is_rule rid_colon m && (line m =? Z.of_nat 0 + 1))
      (messages (Engine.generateMockLintResult (js "abcde:fghi：x"))) = [m] /\
    filter (fun m => is_rule rid_colon m && (line m =? Z.of_nat 0 + 1))
      (messages (EngineFirst.generateMockLintResult (js "abcde:fghi：x"))) = [m] /\
    column m = Z.of_nat pos + 1 /\
    (first_occ colon (js "abcde:fghi：x") = Some 5%nat ->
     first_occ fullwidth_colon (js "abcde:fghi：x") = Some 10%nat ->
     column m = 11).
Proof.
  apply (colon_one_per_line (js "abcde:fghi：x") 0 (js "abcde:fghi：x")).
  - vm_compute; reflexivity.
  - left; vm_compute; auto 20.
Defined.

(** ** Doubled particles *)

(** C2 (counterexample): ["彼は彼は行った"] gets two diagnostics, not one. *)
Lemma doubled_joshi_scenario_two_messages :
  length (messages (Engine.generateMockLintResult (js "彼は彼は行った"))) = 2%nat
  /\ length (messages (EngineFirst.generateMockLintResult (js "彼は彼は行った")))
     = 2%nat.
Proof. split; vm_compute; reflexivity. Qed.

(** C2 (amended): for ["彼は彼は行った"] both copies give a
    [no-doubled-joshi] diagnostic at column 2 whose message names ["は"],
    and besides it a [ja-no-successive-word] diagnostic at column 1 for
    ["彼は"]. *)
Theorem doubled_joshi_scenario :
  messages (Engine.generateMockLintResult (js "彼は彼は行った"))
  = [lint_msg rid_doubled_joshi (joshi_msg 12399) 1 2 1;
     lint_msg rid_successive (successive_msg (js "彼は")) 1 1 2]
  /\ messages (EngineFirst.generateMockLintResult (js "彼は彼は行った"))
  = [lint_msg rid_doubled_joshi (joshi_msg 12399) 1 2 1;
     lint_msg rid_successive (successive_msg (js "彼は")) 1 1 2]
  /\ js "は" = [12399%N].
Proof. repeat split; vm_compute; reflexivity. Qed.

(** ** Sentence length *)

(** C3: on every line [k + 1], the sentence-length diagnostics of
    [generateMockLintResult] are one severity-2 diagnostic per segment of
    the ['。']/['．'] split longer than 100, at the running 1-based offset
    of its start (previous lengths plus one per delimiter); the segments
    are the split's, in order, and each sits at its offset in the line. A
    line of 101 characters without ['。']/['．'] gets exactly one, at
    column 1, reporting 101. *)
Theorem sentence_length_per_segment text k l :
  nth_error (split_lines text) k = Some l ->
  filter (fun m => is_rule rid_sentence_length m && (line m =? Z.of_nat k + 1))
    (messages (Engine.generateMockLintResult text))
  = long_sentence_diags l (Z.of_nat k + 1)
  /\ map snd (sentence_spans l) = split_on is_period l
  /\ (forall o seg, In (o, seg) (sentence_spans l) ->
        firstn (length seg) (skipn o l) = seg)
  /\ (length l = 101%nat -> forallb (fun c => negb (is_period c)) l = true ->
      filter (fun m => is_rule rid_sentence_length m && (line m =? Z.of_nat k + 1))
        (messages (Engine.generateMockLintResult text))
      = [lint_msg rid_sentence_length (sentence_length_msg 101)
           (Z.of_nat k + 1) 1 2]).
Proof.
  intros Hk.
  assert (Hf : filter (fun m => is_rule rid_sentence_length m
                                && (line m =? Z.of_nat k + 1))
                 (messages (Engine.generateMockLintResult text))
               = long_sentence_diags l (Z.of_nat k + 1)).
  { unfold Engine.generateMockLintResult, mk_result; cbn [messages].
    change (Z.of_nat k) with (Z.of_nat (0 + k)).
    rewrite (lint_lines_at Engine.lint_line
               (fun l n m H => proj2 (Engine_lint_line_msg l n m H)) _ _ _ _ _ Hk).
    rewrite Engine_lint_line_sentence_length.
    unfold rule_sentence_length, long_sentence_diags, sentence_spans.
    change 1 with (Z.of_nat 0 + 1) at 1.
    apply sentences_loop_offsets. }
  split; [exact Hf|]; split; [apply with_offsets_snd|]; split.
  - intros o seg H.
    destruct (with_offsets_positions is_period l 0 o seg H) as [_ Hs].
    rewrite Nat.sub_0_r in Hs; exact Hs.
  - intros Hlen Hnone; rewrite Hf.
    unfold long_sentence_diags, sentence_spans.
    rewrite split_on_none by exact Hnone; simpl; rewrite Hlen; simpl.
    rewrite Hlen; reflexivity.
Qed.

Lemma sentence_length_per_segment_witness :
  let text := js "ab。c" in
  filter (fun m => is_rule rid_sentence_length m && (line m =? Z.of_nat 0 + 1))
    (messages (Engine.generateMockLintResult text))
  = long_sentence_diags text (Z.of_nat 0 + 1)
  /\ map snd (sentence_spans text) = split_on is_period text
  /\ (forall o seg, In (o, seg) (sentence_spans text) ->
        firstn (length seg) (skipn o text) = seg)
  /\ (length text = 101%nat -> forallb (fun c => negb (is_period c)) text = true ->
      filter (fun m => is_rule rid_sentence_length m && (line m =? Z.of_nat 0 + 1))
        (messages (Engine.generateMockLintResult text))
      = [lint_msg rid_sentence_length (sentence_length_msg 101)
           (Z.of_nat 0 + 1) 1 2]).
Proof.
  intros text.
  apply (sentence_length_per_segment text 0 text).
  vm_compute; reflexivity.
Defined.

(** ** Counters *)

(** C4: for every text, in both copies of [generateMockLintResult],
    [errorCount + warningCount] is the number of messages, [errorCount]
    counts severity 2, [warningCount] severity 1, and every message has
    severity 1 or 2. *)
Theorem counts_match_messages text :
  counts_ok (Engine.generateMockLintResult text)
  /\ counts_ok (EngineFirst.generateMockLintResult text).
Proof.
  split; apply mk_result_counts, lint_lines_sev.
  - apply Engine_lint_line_msg.
  - apply EngineFirst_lint_line_msg.
Qed.

(** ** Error context *)

(** C5: for a line in [[1, lineCount]] and any column, [before], [error]
    and [after] of the context, with the leading ["..."] of [before] and
    the trailing ["..."] of [after] removed, are contiguous in the line,
    and [error] is the resolved span. *)
Theorem context_roundtrip text line column :
  1 <= line <= Z.of_nat (length (split_lines text)) ->
  let l := line_at (split_lines text) line in
  let ctx := errorContext text line column in
  (exists pre post,
     l = pre ++ strip_leading_ellipsis (before ctx) ++ error ctx
         ++ strip_trailing_ellipsis (after ctx) ++ post)
  /\ error ctx = resolved_span l column.
Proof. apply errorContext_roundtrip. Qed.

Lemma context_roundtrip_witness :
  let l := line_at (split_lines (js "これはとても長い文章の例です、ここに誤りがあります。")) 1 in
  let ctx := errorContext (js "これはとても長い文章の例です、ここに誤りがあります。") 1 25 in
  (exists pre post,
     l = pre ++ strip_leading_ellipsis (before ctx) ++ error ctx
         ++ strip_trailing_ellipsis (after ctx) ++ post)
  /\ error ctx = resolved_span l 25.
Proof.
  apply (context_roundtrip (js "これはとても長い文章の例です、ここに誤りがあります。") 1 25).
  vm_compute; split; discriminate.
Defined.

(** ** Filter *)

(** C6: with every rule of the configuration enabled and the filter
    [all], [filteredMessages] returns the messages unchanged. *)
Theorem filter_all_enabled_identity msgs ec wc rules :
  Forall (fun r => enabled r = true) rules ->
  filteredMessages (Some (mkLintResult msgs ec wc)) FilterAll rules = msgs.
Proof. apply filteredMessages_all. Qed.

Lemma filter_all_enabled_identity_witness :
  filteredMessages
    (Some (Engine.generateMockLintResult (js "彼は彼は行った")))
    FilterAll
    [mkRule rid_doubled_joshi (js "助詞の重複") true (js "grammar")]
  = messages (Engine.generateMockLintResult (js "彼は彼は行った")).
Proof.
  apply (filter_all_enabled_identity
           (messages (Engine.generateMockLintResult (js "彼は彼は行った")))
           (errorCount (Engine.generateMockLintResult (js "彼は彼は行った")))
           (warningCount (Engine.generateMockLintResult (js "彼は彼は行った")))).
  repeat constructor.
Defined.

(** C7: for a line outside [[1, lineCount]], [getErrorContext] returns
    empty [before], [error] and [after], whatever the column and context
    length. *)
Theorem context_out_of_range text line column contextLength :
  line < 1 \/ Z.of_nat (length (split_lines text)) < line ->
  getErrorContext text line column contextLength = mkContext [] [] [].
Proof.
  intros H; unfold getErrorContext.
  replace ((line <? 1) || (Z.of_nat (length (split_lines text)) <? line))
    with true by (symmetry; apply orb_true_iff;
                  destruct H; [left|right]; apply Z.ltb_lt; auto).
  reflexivity.
Qed.

Lemma context_out_of_range_witness :
  getErrorContext (js "一行目" ++ [10%N] ++ js "二行目") 3 1 20 = mkContext [] [] [].
Proof.
  apply (context_out_of_range (js "一行目" ++ [10%N] ++ js "二行目") 3 1 20).
  right; vm_compute; reflexivity.
Defined.

(** C8 (counterexample): on the line ["a"], column 2 = lineLength + 1 is
    in the claim's range and the span length is 1, but the highlighted
    [error] is empty. *)
Lemma error_empty_at_line_end :
  1 <= 1 <= Z.of_nat (length (split_lines (js "a")))
  /\ 1 <= 2 <= jlen (line_at (split_lines (js "a")) 1) + 1
  /\ word_length (substring1 (line_at (split_lines (js "a")) 1) (Z.max 0 (2 - 1))) = 1
  /\ error (errorContext (js "a") 1 2) = [].
Proof. vm_compute; repeat split; discriminate + reflexivity. Qed.

(** C8 (amended): for a line in [[1, lineCount]] and a column in
    [[1, lineLength + 1]], the resolved length [errorLength] is at least
    1, and is 1 when the first character at the offset is a boundary
    character; the highlighted [error] has that length and is non-empty
    when [column <= lineLength], and is empty at [lineLength + 1]. *)
Theorem error_span_length text line column :
  1 <= line <= Z.of_nat (length (split_lines text)) ->
  let l := line_at (split_lines text) line in
  1 <= column <= jlen l + 1 ->
  let errorLength := word_length (substring1 l (Z.max 0 (column - 1))) in
  1 <= errorLength
  /\ (forall c r, substring1 l (Z.max 0 (column - 1)) = c :: r ->
        is_word_stop c = true -> errorLength = 1)
  /\ (column <= jlen l ->
        length (error (errorContext text line column)) = Z.to_nat errorLength
        /\ error (errorContext text line column) <> [])
  /\ (column = jlen l + 1 -> error (errorContext text line column) = []).
Proof. apply errorContext_span. Qed.

Lemma error_span_length_witness :
  let l := line_at (split_lines (js "彼は、行った")) 1 in
  let errorLength := word_length (substring1 l (Z.max 0 (3 - 1))) in
  1 <= errorLength
  /\ (forall c r, substring1 l (Z.max 0 (3 - 1)) = c :: r ->
        is_word_stop c = true -> errorLength = 1)
  /\ (3 <= jlen l ->
        length (error (errorContext (js "彼は、行った") 1 3)) = Z.to_nat errorLength
        /\ error (errorContext (js "彼は、行った") 1 3) <> [])
  /\ (3 = jlen l + 1 -> error (errorContext (js "彼は、行った") 1 3) = []).
Proof.
  apply (error_span_length (js "彼は、行った") 1 3).
  - vm_compute; split; discriminate.
  - vm_compute; split; discriminate.
Defined.

(** ** Debounce *)

(** C9 (counterexample): edits at 0, 50 and 100 ms whose last text is
    blank lead to no engine run at all. *)
Lemma debounce_blank_last_edit :
  invocations (settle (run_edits [(0, js "a"); (50, js "ab"); (100, [])]
                         (mkPipeline [] None [])))
  = [].
Proof. vm_compute; reflexivity. Qed.

(** C9 (amended): from a state with no pending timer, edits at [t],
    [t + 50] and [t + 100] (the first one changing the text) whose last
    text is not blank lead to exactly one more engine run, on the text
    of [t + 100]; and an edit that changes the text before the pending
    deadline replaces the pending timer by one for the new text (or by
    none when it is blank). *)
Theorem debounce_three_edits t st0 s1 s2 s3 :
  pending st0 = None -> s1 <> cur_text st0 -> blank s3 = false ->
  (exists d,
     invocations (settle (run_edits [(t, s1); (t + 50, s2); (t + 100, s3)] st0))
     = invocations st0 ++ [(d, s3)])
  /\ (forall st t' s,
        (forall d p, pending st = Some (d, p) -> t' <= d) ->
        s <> cur_text st ->
        edit t' s st =
        mkPipeline s (if blank s then None else Some (t' + debounceDelay, s))
          (invocations st)).
Proof.
  intros Hp Hs Hb; split.
  - apply three_edits; auto.
  - intros st t' s Hd Hn; apply edit_replaces; auto.
Qed.

Lemma debounce_three_edits_witness :
  (exists d,
     invocations (settle (run_edits [(1000, js "彼"); (1000 + 50, js "彼は");
                                      (1000 + 100, js "彼は行った")]
                            (mkPipeline [] None [])))
     = invocations (mkPipeline [] None []) ++ [(d, js "彼は行った")])
  /\ (forall st t' s,
        (forall d p, pending st = Some (d, p) -> t' <= d) ->
        s <> cur_text st ->
        edit t' s st =
        mkPipeline s (if blank s then None else Some (t' + debounceDelay, s))
          (invocations st)).
Proof.
  apply (debounce_three_edits 1000 (mkPipeline [] None []) (js "彼") (js "彼は")
           (js "彼は行った")).
  - reflexivity.
  - vm_compute; discriminate.
  - vm_compute; reflexivity.
Defined.

(** ** Empty text *)

(** C10: the empty text gets no message and zero counters from both
    copies of [generateMockLintResult]. *)
Theorem empty_text_no_messages :
  Engine.generateMockLintResult (js "") = mkLintResult [] 0 0
  /\ EngineFirst.generateMockLintResult (js "") = mkLintResult [] 0 0.
Proof. split; vm_compute; reflexivity. Qed.

(** * Further properties of the code *)

(** ** Where matches are *)

Lemma scan_from_in {A} (m : nat -> option (nat * A)) n i0 last i e c :
  In (i, e, c) (scan_from m n i0 last) ->
  m i = Some (e, c) /\ (i0 <= i < i0 + n)%nat.
Proof.
  revert i0 last; induction n as [|n IH]; intros i0 last H; simpl in H;
    [destruct H|].
  destruct (Nat.ltb i0 last).
  - destruct (IH _ _ H) as [Hm Hi]; split; [exact Hm|lia].
  - destruct (m i0) as [[e' c']|] eqn:Hm.
    + destruct H as [H|H].
      * injection H as H1 H2 H3; subst; split; [exact Hm|lia].
      * destruct (IH _ _ H) as [Hm' Hi]; split; [exact Hm'|lia].
    + destruct (IH _ _ H) as [Hm' Hi]; split; [exact Hm'|lia].
Qed.

Lemma exec_all_in {A} (M : matcher A) s i e c :
  In (i, e, c) (exec_all M s) -> M s i = Some (e, c).
Proof. unfold exec_all; intros H; apply scan_from_in in H; tauto. Qed.

Lemma exec_first_in {A} (M : matcher A) s x :
  exec_first M s = Some x -> In x (exec_all M s).
Proof.
  unfold exec_first; destruct (exec_all M s); simpl; intros H;
    [discriminate|injection H as ->; auto].
Qed.

Lemma run_skipn_pos {A} (p : A -> bool) s i :
  (0 < run p (skipn i s))%nat -> (i < length s)%nat.
Proof.
  intros H; destruct (Nat.lt_ge_cases i (length s)) as [|Hge]; auto.
  rewrite skipn_all2 in H by lia; simpl in H; lia.
Qed.

Lemma is_prefix_skipn_lt p s i :
  p <> [] -> is_prefix p (skipn i s) = true -> (i < length s)%nat.
Proof.
  intros Hp H; destruct (Nat.lt_ge_cases i (length s)) as [|Hge]; auto.
  rewrite skipn_all2 in H by lia; destruct p; [congruence|discriminate].
Qed.

Lemma greedy_some {B} r lo (test : nat -> option B) b :
  greedy r lo test = Some b -> (lo <= r)%nat.
Proof. unfold greedy; destruct (Nat.ltb_spec r lo); [discriminate|auto]. Qed.

Lemma lit_consumes p : p <> [] -> consumes (lit p).
Proof.
  intros Hp s i e c; unfold lit.
  destruct (is_prefix p (skipn i s)) eqn:H; [|discriminate].
  intros _; exact (is_prefix_skipn_lt _ _ _ Hp H).
Qed.

Lemma excl_re_consumes : consumes excl_re.
Proof.
  intros s i e c; unfold excl_re.
  destruct (Nat.eqb_spec (run_at is_excl s i) 0) as [_|Hr]; [discriminate|].
  intros _; apply (run_skipn_pos is_excl); unfold run_at in Hr; lia.
Qed.

Lemma joshi_re_consumes : consumes joshi_re.
Proof.
  intros s i e c; unfold joshi_re, char_at.
  destruct (nth_error s i) eqn:H; [|discriminate].
  intros _; apply nth_error_Some; congruence.
Qed.

Lemma rep_re_consumes cls lo : (1 <= lo)%nat -> consumes (rep_re cls lo).
Proof.
  intros Hlo s i e c H; unfold rep_re in H; apply greedy_some in H.
  apply (run_skipn_pos cls); unfold run_at in H; lia.
Qed.

Lemma en_space_re_consumes : consumes en_space_re.
Proof.
  intros s i e c H; unfold en_space_re in H.
  destruct (boundary s i); [|discriminate].
  apply greedy_some in H; apply (run_skipn_pos is_latin); unfold run_at in H; lia.
Qed.

Lemma kanji_re_consumes : consumes kanji_re.
Proof.
  intros s i e c; unfold kanji_re.
  destruct (Nat.ltb_spec (run_at is_kanji s i) 7) as [_|Hr]; [discriminate|].
  intros _; apply (run_skipn_pos is_kanji); unfold run_at in Hr; lia.
Qed.

Lemma emphasis_re_consumes : consumes emphasis_re.
Proof.
  intros s i e c; unfold emphasis_re.
  destruct (is_prefix (js "**") (skipn i s)) eqn:H; [|discriminate].
  intros _; refine (is_prefix_skipn_lt _ _ _ _ H); vm_compute; discriminate.
Qed.

Lemma exec_all_lt {A} (M : matcher A) s i e c :
  consumes M -> In (i, e, c) (exec_all M s) -> (i < length s)%nat.
Proof. intros HM H; exact (HM _ _ _ _ (exec_all_in _ _ _ _ _ H)). Qed.

(** [indexOf] of a text found at [i] is at most [i]. *)
Lemma index_of_from_found p s z i :
  is_prefix p (skipn i s) = true ->
  z <= index_of_from p s z <= z + Z.of_nat i.
Proof.
  revert s z; induction i as [|i IH]; intros s z H; simpl in H.
  - destruct s as [|x s]; cbn [index_of_from]; rewrite H; lia.
  - destruct s as [|x s]; cbn [index_of_from].
    + destruct p; simpl in H; [simpl; lia|discriminate].
    + destruct (is_prefix p (x :: s)); [lia|].
      specialize (IH s (z + 1) H); lia.
Qed.

Lemma is_prefix_firstn k s : is_prefix (firstn k s) s = true.
Proof.
  revert s; induction k as [|k IH]; intros [|x s]; simpl; auto.
  rewrite N.eqb_refl; apply IH.
Qed.

Lemma index_of_slice l i e :
  0 <= index_of l (slice l i e) <= Z.of_nat i.
Proof.
  unfold index_of, slice.
  pose proof (index_of_from_found (firstn (e - i) (skipn i l)) l 0 i
                (is_prefix_firstn _ _)); lia.
Qed.

Lemma first_occ_lt c l k : first_occ c l = Some k -> (k < length l)%nat.
Proof.
  revert k; induction l as [|x l IH]; intros k H; simpl in H; [discriminate|].
  destruct (x =? c)%N; [injection H as <-; simpl; lia|].
  destruct (first_occ c l) as [k'|] eqn:E; simpl in H; [|discriminate].
  injection H as <-; specialize (IH _ eq_refl); simpl; lia.
Qed.

Lemma with_offsets_bound p l off o seg :
  In (o, seg) (with_offsets (split_on p l) off) ->
  (o + length seg <= off + length l)%nat.
Proof.
  revert off o seg; induction l as [|c r IH]; intros off o seg H; simpl in H.
  - destruct H as [H|[]]; injection H as <- <-; simpl; lia.
  - destruct (p c); simpl in H.
    + destruct H as [H|H].
      * injection H as <- <-; simpl; lia.
      * specialize (IH _ _ _ H); simpl; lia.
    + destruct (split_on_cons p r) as (w & ws & Hw).
      rewrite Hw in H; simpl in H.
      assert (IH' : forall o' seg',
                 In (o', seg') ((S off, w) :: with_offsets ws (S off + length w + 1)) ->
                 (o' + length seg' <= S off + length r)%nat).
      { intros o' seg' H'; apply IH; rewrite Hw; exact H'. }
      destruct H as [H|H].
      * injection H as <- <-; specialize (IH' _ _ (or_introl eq_refl)); simpl; lia.
      * replace (off + S (length w) + 1)%nat with (S off + length w + 1)%nat in H
          by lia.
        specialize (IH' _ _ (or_intror H)); simpl; lia.
Qed.

(** ** Columns of each rule *)

Lemma cols_ok_app w ms1 ms2 :
  cols_ok w ms1 -> cols_ok w ms2 -> cols_ok w (ms1 ++ ms2).
Proof. intros H1 H2 m Hm; apply in_app_or in Hm as [Hm|Hm]; auto. Qed.

Lemma cols_ok_nil w : cols_ok w [].
Proof. intros m []. Qed.

Lemma map_exec_cols {A} (M : matcher A) l (f : nat * nat * A -> TextlintMessage) :
  consumes M -> (forall i e c, column (f (i, e, c)) = col_of i) ->
  cols_ok (length l) (map f (exec_all M l)).
Proof.
  intros HM Hf m Hm; apply in_map_iff in Hm as [[[i e] c] [<- Hin]].
  rewrite Hf; unfold col_of; pose proof (exec_all_lt _ _ _ _ _ HM Hin); lia.
Qed.

Ltac cols_rule :=
  repeat apply cols_ok_app; try apply cols_ok_nil;
  (apply map_exec_cols;
   [ first [ apply excl_re_consumes | apply joshi_re_consumes
           | apply en_space_re_consumes | apply kanji_re_consumes
           | apply emphasis_re_consumes
           | apply rep_re_consumes; lia
           | apply lit_consumes; vm_compute; discriminate ]
   | intros; reflexivity ]).

Lemma rule_exclamation_cols l n : cols_ok (length l) (rule_exclamation l n).
Proof. unfold rule_exclamation; cols_rule. Qed.

Lemma rule_redundant_cols l n : cols_ok (length l) (rule_redundant l n).
Proof. unfold rule_redundant, redundantPhrases; cbn [flat_map]; cols_rule. Qed.

Lemma rule_weak_cols l n : cols_ok (length l) (rule_weak l n).
Proof. unfold rule_weak, weakPhrases; cbn [flat_map]; cols_rule. Qed.

Lemma rule_doubled_joshi_cols l n : cols_ok (length l) (rule_doubled_joshi l n).
Proof. unfold rule_doubled_joshi; cols_rule. Qed.

Lemma rule_successive_cols l n : cols_ok (length l) (rule_successive l n).
Proof.
  unfold rule_successive, ja_succ_re, en_succ_re; cols_rule.
Qed.

Lemma rule_abusage_cols l n : cols_ok (length l) (rule_abusage l n).
Proof. unfold rule_abusage, ranukiPatterns; cbn [flat_map]; cols_rule. Qed.

Lemma rule_ai_cols l n : cols_ok (length l) (rule_ai l n).
Proof. unfold rule_ai, aiPatterns; cbn [flat_map]; cols_rule. Qed.

Lemma rule_sentence_length_cols l n : cols_ok (length l) (rule_sentence_length l n).
Proof.
  unfold rule_sentence_length; change 1 with (Z.of_nat 0 + 1).
  rewrite sentences_loop_offsets.
  intros m Hm; apply in_map_iff in Hm as [[o seg] [<- Hin]].
  apply filter_In in Hin as [Hin Hlong]; apply Nat.ltb_lt in Hlong.
  pose proof (with_offsets_bound _ _ _ _ _ Hin); simpl; lia.
Qed.

Lemma rule_kanji_cols l n : cols_ok (length l) (rule_kanji l n).
Proof.
  unfold rule_kanji.
  destruct (exec_first kanji_re l) as [[[i e] u]|] eqn:H; [|apply cols_ok_nil].
  pose proof (exec_all_lt _ _ _ _ _ kanji_re_consumes (exec_first_in _ _ _ H)).
  pose proof (index_of_slice l i e).
  intros m Hm; cbv zeta in Hm; destruct Hm as [<-|[]]; simpl; lia.
Qed.

Lemma rule_colon_cols l n : cols_ok (length l) (rule_colon l n).
Proof.
  unfold rule_colon, includes, index_of.
  change (js ":") with [colon]; change (js "：") with [fullwidth_colon].
  rewrite !index_of_from_single.
  destruct (first_occ colon l) as [a|] eqn:Ha,
           (first_occ fullwidth_colon l) as [b|] eqn:Hb;
    try apply first_occ_lt in Ha; try apply first_occ_lt in Hb;
    intros m Hm; cbv zeta in Hm; simpl in Hm;
    repeat match type of Hm with context [if ?b then _ else _] => destruct b end;
    first [ destruct Hm as [<-|[]]; simpl; lia | destruct Hm ].
Qed.

Lemma EngineFirst_rule_sentence_length_cols l n :
  cols_ok (length l) (EngineFirst.rule_sentence_length l n).
Proof.
  unfold EngineFirst.rule_sentence_length, jlen.
  destruct (Z.ltb_spec 100 (Z.of_nat (length l))); [|apply cols_ok_nil].
  intros m Hm; cbv zeta in Hm; destruct Hm as [<-|[]]; simpl; lia.
Qed.

Lemma EngineFirst_rule_doubled_joshi_cols l n :
  cols_ok (length l) (EngineFirst.rule_doubled_joshi l n).
Proof.
  unfold EngineFirst.rule_doubled_joshi.
  destruct (exec_first joshi_re l) as [[[i e] c]|] eqn:H; [|apply cols_ok_nil].
  pose proof (exec_all_lt _ _ _ _ _ joshi_re_consumes (exec_first_in _ _ _ H)).
  pose proof (index_of_slice l i e).
  intros m Hm; cbv zeta in Hm; destruct Hm as [<-|[]]; simpl; lia.
Qed.

Lemma EngineFirst_rule_successive_cols l n :
  cols_ok (length l) (EngineFirst.rule_successive l n).
Proof.
  unfold EngineFirst.rule_successive.
  destruct (exec_first nonspace_succ_re l) as [[[i e] w]|] eqn:H; [|apply cols_ok_nil].
  pose proof (exec_all_lt _ _ _ _ _ (rep_re_consumes _ 1 (le_n 1))
                (exec_first_in _ _ _ H)).
  pose proof (index_of_slice l i e).
  intros m Hm; cbv zeta in Hm; destruct Hm as [<-|[]]; simpl; lia.
Qed.

Ltac abstract_cols C :=
  let a := fresh "a" in
  lazymatch type of C with
  | cols_ok _ ?t => set (a := t) in *; clearbody a
  end.

Lemma Engine_lint_line_cols l n : cols_ok (length l) (Engine.lint_line l n).
Proof.
  unfold Engine.lint_line;
  pose proof (rule_exclamation_cols l n) as C0; abstract_cols C0;
  pose proof (rule_sentence_length_cols l n) as C1; abstract_cols C1;
  pose proof (rule_redundant_cols l n) as C2; abstract_cols C2;
  pose proof (rule_weak_cols l n) as C3; abstract_cols C3;
  pose proof (rule_doubled_joshi_cols l n) as C4; abstract_cols C4;
  pose proof (rule_successive_cols l n) as C5; abstract_cols C5;
  pose proof (rule_abusage_cols l n) as C6; abstract_cols C6;
  pose proof (rule_kanji_cols l n) as C7; abstract_cols C7;
  pose proof (rule_ai_cols l n) as C8; abstract_cols C8;
  pose proof (rule_colon_cols l n) as C9; abstract_cols C9;
  repeat apply cols_ok_app; assumption.
Qed.

Lemma EngineFirst_lint_line_cols l n : cols_ok (length l) (EngineFirst.lint_line l n).
Proof.
  unfold EngineFirst.lint_line;
  pose proof (rule_exclamation_cols l n) as C0; abstract_cols C0;
  pose proof (EngineFirst_rule_sentence_length_cols l n) as C1; abstract_cols C1;
  pose proof (rule_redundant_cols l n) as C2; abstract_cols C2;
  pose proof (rule_weak_cols l n) as C3; abstract_cols C3;
  pose proof (EngineFirst_rule_doubled_joshi_cols l n) as C4; abstract_cols C4;
  pose proof (EngineFirst_rule_successive_cols l n) as C5; abstract_cols C5;
  pose proof (rule_abusage_cols l n) as C6; abstract_cols C6;
  pose proof (rule_kanji_cols l n) as C7; abstract_cols C7;
  pose proof (rule_ai_cols l n) as C8; abstract_cols C8;
  pose proof (rule_colon_cols l n) as C9; abstract_cols C9;
  repeat apply cols_ok_app; assumption.
Qed.

(** Both copies of the engine place each message inside the text. *)
Lemma lint_lines_positions lint_line text m :
  (forall l n m, In m (lint_line l n) ->
     (severity m = 1 \/ severity m = 2) /\ line m = n) ->
  (forall l n, cols_ok (length l) (lint_line l n)) ->
  In m (lint_lines lint_line (split_lines text) 0) ->
  1 <= line m <= Z.of_nat (length (split_lines text)) /\
  1 <= column m <= jlen (line_at (split_lines text) (line m)).
Proof.
  intros Hmsg Hcols Hm.
  destruct (lint_lines_in lint_line _ _ _ Hm) as (k & l & Hk & Hin).
  rewrite (proj2 (Hmsg _ _ _ Hin)).
  pose proof (Hcols _ _ _ Hin) as Hc.
  assert (Hlt : (k < length (split_lines text))%nat)
    by (apply nth_error_Some; congruence).
  unfold line_at; replace (Z.to_nat (Z.of_nat (0 + k) + 1 - 1)) with k by lia.
  rewrite (nth_error_nth _ _ _ Hk); unfold jlen; lia.
Qed.

(** ** Lines and offsets in the text *)

Lemma join_cons l rest :
  rest <> [] -> join_lines (l :: rest) = l ++ [10%N] ++ join_lines rest.
Proof. destruct rest; [congruence|reflexivity]. Qed.

Lemma join_split text : join_lines (split_lines text) = text.
Proof.
  unfold split_lines; induction text as [|c r IH]; [reflexivity|].
  cbn [split_on]; destruct (N.eqb 10 c) eqn:Hc.
  - apply N.eqb_eq in Hc; subst c.
    destruct (split_on_cons (N.eqb 10) r) as (w & ws & Hw).
    rewrite join_cons by (rewrite Hw; discriminate); rewrite IH; reflexivity.
  - destruct (split_on_cons (N.eqb 10) r) as (w & ws & Hw).
    rewrite Hw in *; destruct ws; simpl in *; rewrite <- IH; reflexivity.
Qed.

Lemma join_at ls k l :
  nth_error ls k = Some l ->
  join_lines ls =
  lines_before ls k ++ l ++
  (if Nat.ltb (S k) (length ls) then 10%N :: join_lines (skipn (S k) ls) else []).
Proof.
  unfold lines_before; revert ls; induction k as [|k IH]; intros ls Hk.
  - destruct ls as [|x rest]; simpl in Hk; [discriminate|injection Hk as ->].
    destruct rest as [|y rest]; simpl; [rewrite app_nil_r; reflexivity|].
    reflexivity.
  - destruct ls as [|x rest]; simpl in Hk; [discriminate|].
    assert (Hne : rest <> []) by (destruct rest; [destruct k; discriminate|discriminate]).
    rewrite join_cons by exact Hne; rewrite (IH rest Hk).
    simpl; rewrite <- !app_assoc; reflexivity.
Qed.

Lemma charIndex_loop_prefix ls i line acc k :
  (k <= length ls)%nat -> line - 1 = i + Z.of_nat k ->
  charIndex_loop ls i line acc = acc + Z.of_nat (length (lines_before ls k)).
Proof.
  unfold lines_before; revert ls i acc; induction k as [|k IH]; intros ls i acc Hk Hl.
  - destruct ls as [|x rest]; simpl; [lia|].
    replace (i <? line - 1) with false by (symmetry; apply Z.ltb_ge; lia); lia.
  - destruct ls as [|x rest]; simpl in Hk; [lia|]; simpl.
    replace (i <? line - 1) with true by (symmetry; apply Z.ltb_lt; lia).
    rewrite (IH rest (i + 1)) by lia.
    rewrite length_app, length_app; unfold jlen; simpl; lia.
Qed.

(** [s.substring(a, b)] with [0 <= a <= b]. *)
Lemma substring_nat t a b :
  0 <= a <= b ->
  substring t a b = firstn (Z.to_nat (b - a)) (skipn (Z.to_nat a) t).
Proof.
  intros H.
  rewrite substring_sub by (apply clamp_mono; lia).
  rewrite (clampZ_nat a), (clampZ_nat b) by lia.
  replace (Z.to_nat b) with (Z.to_nat a + Z.to_nat (b - a))%nat by lia.
  apply sub_clamped.
Qed.

Lemma span_length_le r : r <> [] -> (span_length r <= length r)%nat.
Proof.
  intros Hr; unfold span_length.
  destruct (Nat.eqb_spec (run (fun c => negb (is_word_stop c)) r) 0).
  - destruct r; [congruence|simpl; lia].
  - clear Hr n; induction r as [|x r IH]; simpl; [lia|].
    destruct (negb (is_word_stop x)); simpl; lia.
Qed.

(** What [scrollToError] selects on line [k + 1] at a column of that line
    or just after it: the resolved span of the line followed by what
    comes after the line in the text. *)
Lemma scrollToError_selection text k l column :
  nth_error (split_lines text) k = Some l ->
  1 <= column <= jlen l + 1 ->
  let tail := if Nat.ltb (S k) (length (split_lines text))
              then 10%N :: join_lines (skipn (S k) (split_lines text)) else [] in
  let rest := skipn (Z.to_nat (column - 1)) l in
  let sel := scrollToError text (Z.of_nat k + 1) column in
  selectionStart sel = Z.of_nat (length (lines_before (split_lines text) k)) + column - 1
  /\ selectedText sel = firstn (span_length rest) (rest ++ tail).
Proof.
  intros Hk Hc tail rest sel.
  assert (Hlt : (k < length (split_lines text))%nat)
    by (apply nth_error_Some; congruence).
  assert (Hci : charIndex_loop (split_lines text) 0 (Z.of_nat k + 1) 0
                = Z.of_nat (length (lines_before (split_lines text) k)))
    by (rewrite (charIndex_loop_prefix _ _ _ _ k) by lia; lia).
  assert (Hl : line_at (split_lines text) (Z.of_nat k + 1) = l)
    by (unfold line_at; replace (Z.to_nat (Z.of_nat k + 1 - 1)) with k by lia;
        apply nth_error_nth; exact Hk).
  unfold sel, scrollToError; cbn [selectionStart selectedText].
  rewrite Hci; split; [lia|].
  replace ((1 <=? Z.of_nat k + 1) && (Z.of_nat k + 1 <=? Z.of_nat (length (split_lines text))))
    with true by (symmetry; apply andb_true_iff; split; apply Z.leb_le; lia).
  rewrite Hl, substring1_skipn by lia; fold rest.
  rewrite word_length_span, substring_nat by (pose proof (span_length_pos rest); lia).
  replace (Z.to_nat (Z.of_nat (length (lines_before (split_lines text) k)) + (column - 1)
                     + Z.of_nat (span_length rest)
                     - (Z.of_nat (length (lines_before (split_lines text) k)) + (column - 1))))
    with (span_length rest) by lia.
  rewrite <- (join_split text) at 2; rewrite (join_at _ _ _ Hk); fold tail.
  replace (Z.to_nat (Z.of_nat (length (lines_before (split_lines text) k)) + (column - 1)))
    with (length (lines_before (split_lines text) k) + Z.to_nat (column - 1))%nat by lia.
  rewrite skipn_app, (@skipn_all2 _ _ (lines_before (split_lines text) k)) by lia.
  rewrite app_nil_l.
  replace (length (lines_before (split_lines text) k) + Z.to_nat (column - 1)
           - length (lines_before (split_lines text) k))%nat
    with (Z.to_nat (column - 1)) by lia.
  unfold rest; rewrite skipn_app.
  replace (Z.to_nat (column - 1) - length l)%nat with O by (unfold jlen in Hc; lia).
  rewrite skipn_O; reflexivity.
Qed.

Lemma line_in_range_nth text line :
  1 <= line <= Z.of_nat (length (split_lines text)) ->
  nth_error (split_lines text) (Z.to_nat (line - 1))
  = Some (line_at (split_lines text) line)
  /\ line = Z.of_nat (Z.to_nat (line - 1)) + 1.
Proof.
  intros H; split; [|lia].
  unfold line_at; apply nth_error_nth'; lia.
Qed.

Lemma selection_resolved text k l column :
  nth_error (split_lines text) k = Some l ->
  1 <= column <= jlen l ->
  selectedText (scrollToError text (Z.of_nat k + 1) column) = resolved_span l column.
Proof.
  intros Hk Hc.
  destruct (scrollToError_selection text k l column Hk ltac:(lia)) as [_ ->].
  unfold resolved_span.
  set (rest := skipn (Z.to_nat (column - 1)) l).
  assert (Hr : rest <> []).
  { unfold rest; intros E; apply (f_equal (@length N)) in E.
    rewrite length_skipn in E; unfold jlen in Hc; simpl in E; lia. }
  pose proof (span_length_le rest Hr).
  rewrite firstn_app; replace (span_length rest - length rest)%nat with O by lia.
  rewrite firstn_O, app_nil_r; reflexivity.
Qed.

Lemma selection_start_line text k l column :
  nth_error (split_lines text) k = Some l ->
  1 <= column <= jlen l + 1 ->
  firstn (length l)
    (skipn (Z.to_nat (selectionStart (scrollToError text (Z.of_nat k + 1) column)
                      - (column - 1))) text) = l.
Proof.
  intros Hk Hc.
  destruct (scrollToError_selection text k l column Hk Hc) as [-> _].
  replace (Z.to_nat (Z.of_nat (length (lines_before (split_lines text) k))
                     + column - 1 - (column - 1)))
    with (length (lines_before (split_lines text) k)) by lia.
  rewrite <- (join_split text) at 2; rewrite (join_at _ _ _ Hk).
  rewrite skipn_app, skipn_all, Nat.sub_diag, skipn_O, app_nil_l.
  rewrite firstn_app, Nat.sub_diag, firstn_O, app_nil_r, firstn_all; reflexivity.
Qed.

(** ** Properties *)

(** X1: both copies of [generateMockLintResult] place every diagnostic
    inside the text: its line is in [[1, lineCount]] and its column in
    [[1, lineLength]] of that line. *)
Theorem diagnostics_inside_text text m :
  In m (messages (Engine.generateMockLintResult text))
  \/ In m (messages (EngineFirst.generateMockLintResult text)) ->
  1 <= line m <= Z.of_nat (length (split_lines text)) /\
  1 <= column m <= jlen (line_at (split_lines text) (line m)).
Proof.
  intros [Hm|Hm]; apply lint_lines_positions with (m := m) in Hm; auto.
  - apply Engine_lint_line_msg.
  - apply Engine_lint_line_cols.
  - apply EngineFirst_lint_line_msg.
  - apply EngineFirst_lint_line_cols.
Qed.

Lemma diagnostics_inside_text_witness :
  let text := js "ok" ++ [10%N] ++ js "すごい！" in
  let m := lint_msg rid_exclamation
             (js "文末に感嘆符や疑問符を使用しないでください") 2 4 2 in
  1 <= line m <= Z.of_nat (length (split_lines text)) /\
  1 <= column m <= jlen (line_at (split_lines text) (line m)).
Proof.
  intros text m.
  apply (diagnostics_inside_text text m).
  left; vm_compute; left; reflexivity.
Defined.

(** X2: at a column of a line, [scrollToError] selects exactly the text
    that [getErrorContext] highlights, and its selection starts
    [column - 1] code units after the start of that line in the text. *)
Theorem selection_is_highlight text line column :
  1 <= line <= Z.of_nat (length (split_lines text)) ->
  let l := line_at (split_lines text) line in
  1 <= column <= jlen l ->
  selectedText (scrollToError text line column)
  = error (errorContext text line column)
  /\ firstn (length l)
       (skipn (Z.to_nat (selectionStart (scrollToError text line column)
                         - (column - 1))) text) = l.
Proof.
  intros Hline l Hc.
  destruct (line_in_range_nth text line Hline) as [Hk Hn].
  destruct (errorContext_roundtrip text line column Hline) as [_ He].
  rewrite He; fold l in Hk |- *.
  rewrite Hn; split.
  - apply selection_resolved; auto.
  - apply selection_start_line; auto; lia.
Qed.

Lemma selection_is_highlight_witness :
  let text := js "彼は彼は行った" ++ [10%N] ++ js "二行目" in
  let l := line_at (split_lines text) 1 in
  selectedText (scrollToError text 1 3) = error (errorContext text 1 3)
  /\ firstn (length l)
       (skipn (Z.to_nat (selectionStart (scrollToError text 1 3) - (3 - 1))) text) = l.
Proof.
  intros text l.
  apply (selection_is_highlight text 1 3).
  - vm_compute; split; discriminate.
  - vm_compute; split; discriminate.
Defined.

(** X3: on a line that is not the last one, [scrollToError] at column
    [lineLength + 1] selects the line break, while [getErrorContext]
    highlights nothing there. *)
Theorem selection_end_of_line text line :
  1 <= line < Z.of_nat (length (split_lines text)) ->
  let column := jlen (line_at (split_lines text) line) + 1 in
  selectedText (scrollToError text line column) = [10%N]
  /\ error (errorContext text line column) = [].
Proof.
  intros Hline column.
  destruct (line_in_range_nth text line ltac:(lia)) as [Hk Hn].
  set (l := line_at (split_lines text) line) in *.
  assert (Hcol : column = jlen l + 1) by reflexivity; clearbody column.
  assert (Hrest : skipn (Z.to_nat (column - 1)) l = [])
    by (apply skipn_all2; unfold jlen in Hcol; lia).
  assert (Hc : 1 <= column <= jlen l + 1) by (unfold jlen in *; lia).
  split.
  - rewrite Hn.
    destruct (scrollToError_selection text _ l column Hk Hc) as [_ ->].
    replace (Nat.ltb (S (Z.to_nat (line - 1))) (length (split_lines text))) with true
      by (symmetry; apply Nat.ltb_lt; lia).
    rewrite Hrest; reflexivity.
  - destruct (errorContext_roundtrip text line column ltac:(lia)) as [_ ->].
    unfold resolved_span; fold l; rewrite Hrest.
    destruct (span_length []); reflexivity.
Qed.

Lemma selection_end_of_line_witness :
  let text := js "ab" ++ [10%N] ++ js "cd" in
  let column := jlen (line_at (split_lines text) 1) + 1 in
  selectedText (scrollToError text 1 column) = [10%N]
  /\ error (errorContext text 1 column) = [].
Proof.
  intros text column.
  apply (selection_end_of_line text 1).
  vm_compute; split; discriminate + reflexivity.
Defined.

(** X4: for every diagnostic of [generateMockLintResult] (first copy),
    the error context highlights a non-empty text, and clicking the
    diagnostic ([scrollToError] at its line and column) selects exactly
    that text. *)
Theorem diagnostics_highlighted text :
  forall m, In m (messages (Engine.generateMockLintResult text)) ->
  error (errorContext text (line m) (column m)) <> []
  /\ selectedText (scrollToError text (line m) (column m))
     = error (errorContext text (line m) (column m)).
Proof.
  intros m Hm.
  destruct (lint_lines_positions Engine.lint_line text m Engine_lint_line_msg
              Engine_lint_line_cols Hm) as [Hline Hcol].
  destruct (line_in_range_nth text (line m) Hline) as [Hk Hn].
  destruct (errorContext_span text (line m) (column m) Hline ltac:(lia))
    as (_ & _ & Hin & _).
  destruct (Hin ltac:(lia)) as [_ Hne]; split; [exact Hne|].
  destruct (errorContext_roundtrip text (line m) (column m) Hline) as [_ ->].
  rewrite Hn at 1; apply selection_resolved; auto.
Qed.

Lemma diagnostics_highlighted_witness :
  let text := js "ok" ++ [10%N] ++ js "すごい！" in
  let m := lint_msg rid_exclamation
             (js "文末に感嘆符や疑問符を使用しないでください") 2 4 2 in
  error (errorContext text (line m) (column m)) <> []
  /\ selectedText (scrollToError text (line m) (column m))
     = error (errorContext text (line m) (column m)).
Proof.
  intros text m.
  apply (diagnostics_highlighted text m).
  vm_compute; left; reflexivity.
Defined.

(** ** Rule settings and the message list *)

Lemma filtered_in r f rs m :
  In m (filteredMessages (Some r) f rs) <->
  In m (messages r) /\ visible rs m = true /\
  match f with
  | FilterAll => True
  | FilterError => severity m = 2
  | FilterWarning => severity m = 1
  end.
Proof.
  unfold filteredMessages, visible.
  destruct f; rewrite ?filter_In, ?filter_In, ?Z.eqb_eq; tauto.
Qed.

Lemma toggleRule_ids rid rs : map rule_id (toggleRule rid rs) = map rule_id rs.
Proof.
  unfold toggleRule; rewrite map_map; apply map_ext; intros r.
  destruct (jstr_eqb (rule_id r) rid); reflexivity.
Qed.

Lemma toggle_all_ids ids rs : map rule_id (toggle_all ids rs) = map rule_id rs.
Proof.
  unfold toggle_all; revert rs; induction ids as [|i ids IH]; intros rs; simpl;
    [reflexivity|]; rewrite IH; apply toggleRule_ids.
Qed.

Lemma find_rule_none rs rid :
  ~ In rid (map rule_id rs) -> find_rule rs rid = None.
Proof.
  induction rs as [|r rs IH]; intros H; [reflexivity|]; simpl in *.
  rewrite jstr_eqb_neq by tauto; apply IH; tauto.
Qed.

Lemma find_rule_toggle_other rs rid rid' :
  rid' <> rid -> find_rule (toggleRule rid rs) rid' = find_rule rs rid'.
Proof.
  intros Hne; induction rs as [|r rs IH]; [reflexivity|].
  unfold find_rule, toggleRule in *; simpl.
  destruct (jstr_eqb (rule_id r) rid) eqn:E; simpl.
  - apply jstr_eqb_eq in E; rewrite E, (jstr_eqb_neq rid rid') by congruence.
    exact IH.
  - destruct (jstr_eqb (rule_id r) rid'); [reflexivity|exact IH].
Qed.

Lemma find_rule_toggle_same rs rid :
  find_rule (toggleRule rid rs) rid
  = option_map (fun r => mkRule (rule_id r) (rule_name r) (negb (enabled r))
                           (category r)) (find_rule rs rid).
Proof.
  induction rs as [|r rs IH]; [reflexivity|].
  unfold find_rule, toggleRule in *; simpl.
  destruct (jstr_eqb (rule_id r) rid) eqn:E; simpl; [rewrite E|]; auto.
  rewrite E; exact IH.
Qed.

Lemma toggleRule_twice rid rs : toggleRule rid (toggleRule rid rs) = rs.
Proof.
  unfold toggleRule; rewrite map_map.
  rewrite <- (map_id rs) at 2; apply map_ext; intros [i n e c]; simpl.
  destruct (jstr_eqb i rid) eqn:E; simpl; rewrite ?E, ?negb_involutive; reflexivity.
Qed.

Lemma page_counts_sum r f rs :
  Forall (fun m => severity m = 1 \/ severity m = 2) (messages r) ->
  let fm := filteredMessages (Some r) f rs in
  (page_errorCount fm + page_warningCount fm = length fm)%nat.
Proof.
  intros Hr fm.
  assert (Hsev : Forall (fun m => severity m = 1 \/ severity m = 2) fm).
  { apply Forall_forall; intros m Hm; apply filtered_in in Hm.
    exact (proj1 (Forall_forall _ _) Hr m (proj1 Hm)). }
  clearbody fm; unfold page_errorCount, page_warningCount.
  induction Hsev as [|m ms Hm _ IH]; [reflexivity|]; simpl.
  destruct Hm as [-> | ->]; simpl; lia.
Qed.

Lemma engines_sev text :
  Forall (fun m => severity m = 1 \/ severity m = 2)
    (messages (Engine.generateMockLintResult text))
  /\ Forall (fun m => severity m = 1 \/ severity m = 2)
    (messages (EngineFirst.generateMockLintResult text)).
Proof.
  split; apply lint_lines_sev.
  - apply Engine_lint_line_msg.
  - apply EngineFirst_lint_line_msg.
Qed.

Lemma defaultRules_enabled : Forall (fun r => enabled r = true) defaultRules.
Proof. repeat constructor. Qed.

(** X5: whatever the severity filter and the rule settings, the page's
    error and warning counters add up to the number of listed messages,
    for the results of both copies of [generateMockLintResult]. *)
Theorem page_counts_partition text f rs :
  let fm := filteredMessages (Some (Engine.generateMockLintResult text)) f rs in
  let fm' := filteredMessages (Some (EngineFirst.generateMockLintResult text)) f rs in
  (page_errorCount fm + page_warningCount fm = length fm)%nat
  /\ (page_errorCount fm' + page_warningCount fm' = length fm')%nat.
Proof.
  destruct (engines_sev text) as [H1 H2].
  split; apply page_counts_sum; assumption.
Qed.

(** X6: with the page's initial rule settings and the "all" filter, the
    page lists every message of the result and its error and warning
    counters equal the result's [errorCount] and [warningCount]. *)
Theorem initial_page_counts text :
  let r := Engine.generateMockLintResult text in
  let fm := filteredMessages (Some r) FilterAll defaultRules in
  fm = messages r
  /\ Z.of_nat (page_errorCount fm) = errorCount r
  /\ Z.of_nat (page_warningCount fm) = warningCount r.
Proof.
  intros r fm.
  assert (Hfm : fm = messages r).
  { unfold fm, r, Engine.generateMockLintResult, mk_result.
    apply filteredMessages_all, defaultRules_enabled. }
  rewrite Hfm; split; [reflexivity|].
  unfold r, Engine.generateMockLintResult, mk_result; simpl.
  split; reflexivity.
Qed.

(** X7: a message whose rule is listed in the settings and switched off
    is never shown, whatever the severity filter. *)
Theorem disabled_rule_hidden r f rs m rule :
  find_rule rs (ruleId m) = Some rule -> enabled rule = false ->
  ~ In m (filteredMessages (Some r) f rs).
Proof.
  intros Hf He Hin; apply filtered_in in Hin.
  destruct Hin as (_ & Hv & _); unfold visible in Hv; rewrite Hf in Hv; congruence.
Qed.

Lemma disabled_rule_hidden_witness :
  let rs := toggleRule rid_colon defaultRules in
  let m := lint_msg rid_colon (js "x") 1 2 1 in
  let r := mk_result [m] in
  find_rule rs (ruleId m) = Some (mkRule rid_colon (js "コロンの使用") false (js "ai"))
  /\ ~ In m (filteredMessages (Some r) FilterAll rs).
Proof.
  intros rs m r.
  assert (H : find_rule rs (ruleId m)
              = Some (mkRule rid_colon (js "コロンの使用") false (js "ai")))
    by (vm_compute; reflexivity).
  split; [exact H|].
  exact (disabled_rule_hidden r FilterAll rs m _ H eq_refl).
Defined.

(** X8: a message whose rule id is not in the settings list passes the
    rule filter: with the "all" filter it is always shown. *)
Theorem unlisted_rule_shown r rs m :
  In m (messages r) -> ~ In (ruleId m) (map rule_id rs) ->
  In m (filteredMessages (Some r) FilterAll rs).
Proof.
  intros Hm Hn; apply filtered_in; repeat split; auto.
  unfold visible; rewrite find_rule_none by exact Hn; reflexivity.
Qed.

Lemma unlisted_rule_shown_witness :
  let m := lint_msg rid_kanji (js "x") 1 1 1 in
  In m (messages (mk_result [m])) /\ ~ In (ruleId m) (map rule_id defaultRules)
  /\ In m (filteredMessages (Some (mk_result [m])) FilterAll defaultRules).
Proof.
  intros m.
  assert (H1 : In m (messages (mk_result [m]))) by (left; reflexivity).
  assert (H2 : ~ In (ruleId m) (map rule_id defaultRules)).
  { vm_compute; intros H; repeat destruct H as [H|H]; discriminate + exact H. }
  split; [exact H1|split; [exact H2|]].
  exact (unlisted_rule_shown _ _ m H1 H2).
Defined.

(** X9: [toggleRule] undoes itself, and it keeps the list of rules, their
    ids, names and categories: only [enabled] changes. *)
Theorem toggleRule_involutive rid rs :
  toggleRule rid (toggleRule rid rs) = rs
  /\ map rule_id (toggleRule rid rs) = map rule_id rs
  /\ map rule_name (toggleRule rid rs) = map rule_name rs
  /\ map category (toggleRule rid rs) = map category rs.
Proof.
  split; [apply toggleRule_twice|split; [apply toggleRule_ids|]].
  unfold toggleRule; rewrite !map_map.
  split; apply map_ext; intros rl; destruct (jstr_eqb (rule_id rl) rid); reflexivity.
Qed.

Lemma find_rule_listed rs rid :
  In rid (map rule_id rs) -> exists rule, find_rule rs rid = Some rule.
Proof.
  induction rs as [|r rs IH]; intros H; [destruct H|]; simpl in *.
  destruct (jstr_eqb (rule_id r) rid) eqn:E; [eauto|].
  destruct H as [H|H]; [rewrite H, jstr_eqb_refl in E; discriminate|auto].
Qed.

(** X10: toggling the rule of a message that is listed in the settings
    flips whether that message is shown under the "all" filter. *)
Theorem toggle_flips_visibility r rs m :
  In m (messages r) -> In (ruleId m) (map rule_id rs) ->
  In m (filteredMessages (Some r) FilterAll (toggleRule (ruleId m) rs))
  <-> ~ In m (filteredMessages (Some r) FilterAll rs).
Proof.
  intros Hm Hid; rewrite !filtered_in; unfold visible.
  rewrite find_rule_toggle_same.
  destruct (find_rule_listed rs (ruleId m) Hid) as [rule ->]; simpl.
  destruct (enabled rule); simpl; intuition discriminate.
Qed.

Lemma toggle_flips_visibility_witness :
  let m := lint_msg rid_colon (js "x") 1 2 1 in
  let r := mk_result [m] in
  In m (messages r) /\ In (ruleId m) (map rule_id defaultRules) /\
  (In m (filteredMessages (Some r) FilterAll (toggleRule (ruleId m) defaultRules))
   <-> ~ In m (filteredMessages (Some r) FilterAll defaultRules)).
Proof.
  intros m r.
  assert (H1 : In m (messages r)) by (left; reflexivity).
  assert (H2 : In (ruleId m) (map rule_id defaultRules))
    by (vm_compute; repeat (left; reflexivity) || right).
  split; [exact H1|split; [exact H2|]].
  exact (toggle_flips_visibility r defaultRules m H1 H2).
Defined.

(** X11: toggling a rule changes nothing for the messages of the other
    rules, whatever the severity filter. *)
Theorem toggle_other_rules r f rs rid m :
  ruleId m <> rid ->
  In m (filteredMessages (Some r) f (toggleRule rid rs))
  <-> In m (filteredMessages (Some r) f rs).
Proof.
  intros Hne; rewrite !filtered_in; unfold visible.
  rewrite find_rule_toggle_other by exact Hne; reflexivity.
Qed.

Lemma toggle_other_rules_witness :
  let m := lint_msg rid_colon (js "x") 1 2 1 in
  let r := mk_result [m] in
  ruleId m <> rid_exclamation /\
  (In m (filteredMessages (Some r) FilterWarning (toggleRule rid_exclamation defaultRules))
   <-> In m (filteredMessages (Some r) FilterWarning defaultRules)).
Proof.
  intros m r.
  assert (H : ruleId m <> rid_exclamation) by (vm_compute; discriminate).
  split; [exact H|exact (toggle_other_rules r FilterWarning defaultRules _ m H)].
Defined.

(** X12: the rule ids [sentence-length] and [max-kanji-continuous-len]
    are not in the page's rule list, so no sequence of toggles can hide
    their messages: under the "all" filter they are always shown. *)
Theorem unlisted_rules_always_shown ids r m :
  ruleId m = rid_sentence_length \/ ruleId m = rid_kanji ->
  In m (messages r) ->
  In m (filteredMessages (Some r) FilterAll (toggle_all ids defaultRules)).
Proof.
  intros Hid Hm; apply filtered_in; repeat split; auto.
  unfold visible; rewrite find_rule_none; [reflexivity|].
  rewrite toggle_all_ids.
  destruct Hid as [-> | ->]; vm_compute; intros H;
    repeat destruct H as [H|H]; discriminate + exact H.
Qed.

Lemma unlisted_rules_always_shown_witness :
  let m := lint_msg rid_kanji (js "x") 1 1 1 in
  let r := mk_result [m] in
  In m (filteredMessages (Some r) FilterAll
          (toggle_all [rid_kanji; rid_colon; rid_sentence_length] defaultRules)).
Proof.
  intros m r.
  apply (unlisted_rules_always_shown _ r m); [right; reflexivity|left; reflexivity].
Defined.
